(** * The versioned IAVL tree: [iavl_versioned_tree.go]

    A shallow embedding of [VersionedTree], the orchestrator that keeps one
    mutable working tree, a map from saved version numbers to frozen trees and
    the number of the latest saved version.  Every method of the Go file is a
    computation over an explicit [VersionedTree] state; the [orphaningTree]
    objects it points to live in a heap, so that the aliasing between the
    working tree and [versions[V]] inside [SaveVersion] is the code's own. *)

From Stdlib Require Import Ascii.
From stdpp Require Import base numbers option list strings pretty gmap fin_maps.

Set Default Proof Using "Type".
Open Scope N_scope.

(** ** Go base types *)

(** [uint64]: version numbers.  The file only compares them ([==], [<=], [>])
    and uses them as map keys; it never does arithmetic on them, so there is
    no wrap-around to write out. *)
Abbreviation uint64 := N (only parsing).

(** [[]byte]; Go's [nil] slice is the empty one. *)
Abbreviation bytes := (list Byte.byte) (only parsing).

(** ** Errors

    [fmt.Errorf] and [errors.New] build an error from its message,
    [errors.Errorf] formats the message first, [errors.WithStack] wraps a
    cause. *)
Inductive error : Type :=
  | fmt_Errorf (msg : string)
  | errors_New (msg : string)
  | errors_WithStack (cause : error).

(** [fmt.Sprintf] restricted to the one verb the file uses, [%d] on unsigned
    integers.  Arguments are consumed left to right; the file passes as many
    as the format has verbs. *)
Fixpoint Sprintf (format : string) (args : list N) : string :=
  match format with
  | EmptyString => EmptyString
  | String "%"%char (String "d"%char rest) =>
      match args with
      | a :: args' => pretty a +:+ Sprintf rest args'
      | [] => "%!d(MISSING)" +:+ Sprintf rest []
      end
  | String c rest => String c (Sprintf rest args)
  end.

Definition errors_Errorf (format : string) (args : list N) : error :=
  errors_New (Sprintf format args).

(** Line 10: [var ErrVersionDoesNotExist = fmt.Errorf("version does not exist")]. *)
Definition ErrVersionDoesNotExist : error := fmt_Errorf "version does not exist".

(** [err.Error()]. *)
Fixpoint Error (e : error) : string :=
  match e with
  | fmt_Errorf msg => msg
  | errors_New msg => msg
  | errors_WithStack cause => Error cause
  end.

(** ** Completions

    A Go call either returns or panics.  The file itself can panic on a nil
    pointer ([t.root.version], [tree.root.hash], [Clone] on a nil receiver);
    the store's [Commit] is called as a statement, so a failed batch write
    has no other way to reach the caller. *)
Inductive panic : Type :=
  | nil_dereference
  | commit_failure.

Inductive completion (A : Type) : Type :=
  | Returns (a : A)
  | Panics (p : panic).
Arguments Returns {A} a.
Arguments Panics {A} p.

(** Heap addresses of [orphaningTree] objects. *)
Abbreviation loc := positive (only parsing).

(** ** The collaborators declared in the other files of the package *)

(** One [orphaningTree] object: the [root] pointer of the [*IAVLTree] it
    embeds (nil is [None]) and its orphans.  The embedded tree's other field,
    [ndb], is in every tree of this file the [VersionedTree]'s own [*nodeDB]
    (lines 23, 62), so the store is kept once, in the [VersionedTree]. *)
Record orphaningTree (Node Orphans : Type) : Type := mk_orphaningTree {
  root : option Node;
  orphans : Orphans;
}.
Arguments mk_orphaningTree {Node Orphans} root orphans.
Arguments root {Node Orphans} _.
Arguments orphans {Node Orphans} _.

(** Modelled from the spec: the types and operations of [IAVLNode],
    [orphaningTree], [IAVLTree] and [nodeDB], which this file calls and the
    other files of the package declare.  They are parameters; the two laws are
    what the spec says of [clone()] ("a new Orphaning Tree sharing the same
    root reference") and of [saveVersion(V)] (it stamps nodes, flushes the
    orphan list and freezes the instance: the root it had stays in place).
    Reads take the store as it is and leave it so; every operation returns,
    but for [Commit], whose failure section 7 of the spec provides for. *)
Class Collaborators : Type := {
  (** [IAVLNode], through the two fields this file reads. *)
  IAVLNode : Type;
  version : IAVLNode → uint64;
  hash : IAVLNode → bytes;
  (** The orphan bookkeeping of an [orphaningTree]. *)
  Orphans : Type;
  no_orphans : Orphans;
  (** The contents behind the [*nodeDB] pointer, and [dbm.DB]. *)
  nodeDB : Type;
  DB : Type;
  (** Proof objects. *)
  KeyProof : Type;
  KeyRangeProof : Type;
  KeyFirstInRangeProof : Type;
  KeyLastInRangeProof : Type;
  (** [ErrNilRoot], a package variable. *)
  ErrNilRoot : error;
  (** [nodeDB] *)
  newNodeDB : Z → DB → nodeDB;
  ndb_String : nodeDB → string;
  (** [getRoots]: the root hashes in the order the [range] loop visits them,
      or an error. *)
  ndb_getRoots : nodeDB → list bytes + error;
  ndb_SaveRoot : option IAVLNode → uint64 → nodeDB → nodeDB;
  ndb_DeleteVersion : uint64 → nodeDB → nodeDB;
  (** [Commit]: [None] when writing the batch fails; the store is then as it
      was. *)
  ndb_Commit : nodeDB → option nodeDB;
  (** The methods of [orphaningTree], on the contents of the receiver. *)
  ot_Load : nodeDB → bytes → orphaningTree IAVLNode Orphans → orphaningTree IAVLNode Orphans;
  ot_SaveVersion :
    uint64 → orphaningTree IAVLNode Orphans → nodeDB → orphaningTree IAVLNode Orphans * nodeDB;
  ot_Clone : orphaningTree IAVLNode Orphans → orphaningTree IAVLNode Orphans;
  ot_Get : nodeDB → orphaningTree IAVLNode Orphans → bytes → Z * bytes * bool;
  ot_GetWithProof :
    nodeDB → orphaningTree IAVLNode Orphans → bytes → bytes * option KeyProof * option error;
  ot_GetRangeWithProof :
    nodeDB → orphaningTree IAVLNode Orphans → bytes → bytes → Z →
    list bytes * list bytes * option KeyRangeProof * option error;
  ot_GetFirstInRangeWithProof :
    nodeDB → orphaningTree IAVLNode Orphans → bytes → bytes →
    bytes * bytes * option KeyFirstInRangeProof * option error;
  ot_GetLastInRangeWithProof :
    nodeDB → orphaningTree IAVLNode Orphans → bytes → bytes →
    bytes * bytes * option KeyLastInRangeProof * option error;
  (** Laws. *)
  ot_Clone_root : ∀ t, root (ot_Clone t) = root t;
  ot_SaveVersion_root :
    ∀ v t db, is_Some (root t) → is_Some (root (ot_SaveVersion v t db).1);
}.

(** ** The state of a versioned tree *)

Section VersionedTree.
Context `{C : Collaborators}.

(** [type VersionedTree struct] (lines 13-18), with the objects its
    pointers reach.  [working] is the embedded [*orphaningTree]: the
    constructor and every assignment of the file store a freshly allocated,
    non-nil pointer there.  [versions] holds the pointers the file stores,
    which are never nil; a lookup of an absent key is Go's nil. *)
Record VersionedTree : Type := mk_VersionedTree {
  heap : gmap loc (orphaningTree IAVLNode Orphans);
  working : loc;
  versions : gmap N loc;
  latestVersion : uint64;
  ndb : nodeDB;
}.

Definition set_heap (h : gmap loc (orphaningTree IAVLNode Orphans))
    (tree : VersionedTree) : VersionedTree :=
  mk_VersionedTree h (working tree) (versions tree) (latestVersion tree) (ndb tree).
Definition set_working (l : loc) (tree : VersionedTree) : VersionedTree :=
  mk_VersionedTree (heap tree) l (versions tree) (latestVersion tree) (ndb tree).
Definition set_versions (m : gmap N loc) (tree : VersionedTree) : VersionedTree :=
  mk_VersionedTree (heap tree) (working tree) m (latestVersion tree) (ndb tree).
Definition set_latestVersion (v : uint64) (tree : VersionedTree) : VersionedTree :=
  mk_VersionedTree (heap tree) (working tree) (versions tree) v (ndb tree).
Definition set_ndb (db : nodeDB) (tree : VersionedTree) : VersionedTree :=
  mk_VersionedTree (heap tree) (working tree) (versions tree) (latestVersion tree) db.

(** [newOrphaningTree(&IAVLTree{ndb: tree.ndb})]: the tree literal leaves
    [root] nil; the wrapper starts without orphans. *)
Definition newOrphaningTree : orphaningTree IAVLNode Orphans :=
  mk_orphaningTree None no_orphans.

(** The object behind a pointer.  Go has no dangling pointers; an address
    the heap does not hold reads as the empty tree. *)
Definition object (tree : VersionedTree) (l : loc) : orphaningTree IAVLNode Orphans :=
  default newOrphaningTree (heap tree !! l).

(** ** Computations: state passing with panics *)

Definition M (A : Type) : Type := VersionedTree → completion A * VersionedTree.

Definition ret {A} (a : A) : M A := λ tree, (Returns a, tree).
Definition bind {A B} (m : M A) (k : A → M B) : M B :=
  λ tree, match m tree with
          | (Returns a, tree') => k a tree'
          | (Panics p, tree') => (Panics p, tree')
          end.
Definition raise {A} (p : panic) : M A := λ tree, (Panics p, tree).
Definition gets {A} (f : VersionedTree → A) : M A := λ tree, (Returns (f tree), tree).
Definition modify (f : VersionedTree → VersionedTree) : M unit :=
  λ tree, (Returns tt, f tree).

Notation "x <- m ;; k" := (bind m (λ x, k))
  (at level 100, m at next level, right associativity,
   format "'[v' x  <-  m  ;;  '/' k ']'").
Notation "m ;;; k" := (bind m (λ _, k))
  (at level 100, right associativity, format "'[v' m  ;;;  '/' k ']'").

(** [&orphaningTree{...}]: a new object at an address not in use. *)
Definition alloc (t : orphaningTree IAVLNode Orphans) : M loc :=
  λ tree, let l := fresh (dom (heap tree)) in
          (Returns l, set_heap (<[l := t]> (heap tree)) tree).

(** [tree.root], through the embedded pointers. *)
Definition working_root : M (option IAVLNode) :=
  gets (λ tree, root (object tree (working tree))).

(** [p.Clone()] on a [*orphaningTree].  The method reads the receiver's
    root, so a nil receiver is a nil dereference. *)
Definition Clone (p : option loc) : M loc :=
  match p with
  | None => raise nil_dereference
  | Some l => t <- gets (λ tree, object tree l) ;; alloc (ot_Clone t)
  end.

(** [tree.ndb.Commit()]. *)
Definition Commit : M unit :=
  λ tree, match ndb_Commit (ndb tree) with
          | Some db => (Returns tt, set_ndb db tree)
          | None => (Panics commit_failure, tree)
          end.

(** ** The methods of the file *)

(** Lines 21-30.  [latestVersion] is left at its zero value. *)
Definition NewVersionedTree (cacheSize : Z) (db : DB) : VersionedTree :=
  {| heap := {[ 1%positive := newOrphaningTree ]};
     working := 1%positive;
     versions := ∅;
     latestVersion := 0;
     ndb := newNodeDB cacheSize db |}.

(** Lines 33-35. *)
Definition LatestVersion : M uint64 := gets latestVersion.

(** Lines 38-41. *)
Definition VersionExists (version : uint64) : M bool :=
  gets (λ tree, bool_decide (is_Some (versions tree !! version))).

(** Lines 44-46: the working tree's embedded [*IAVLTree], which has the
    address of its wrapper here. *)
Definition Tree : M loc := gets working.

(** Lines 49-51. *)
Definition String_ : M string := gets (λ tree, ndb_String (ndb tree)).

(** Lines 61-71, the body of the loop for one root. *)
Definition Load_root (r : bytes) : M unit :=
  (* t := newOrphaningTree(&IAVLTree{ndb: tree.ndb}) *)
  t <- alloc newOrphaningTree ;;
  (* t.Load(root) *)
  modify (λ tree, set_heap (<[t := ot_Load (ndb tree) r (object tree t)]> (heap tree)) tree) ;;;
  (* version := t.root.version *)
  n <- gets (λ tree, root (object tree t)) ;;
  match n with
  | None => raise nil_dereference
  | Some n =>
      let version := version n in
      (* tree.versions[version] = t *)
      modify (λ tree, set_versions (<[version := t]> (versions tree)) tree) ;;;
      latest <- gets latestVersion ;;
      if bool_decide (latest < version)
      then modify (set_latestVersion version)
      else ret tt
  end.

(** Lines 61-71, the loop. *)
Fixpoint Load_roots (roots : list bytes) : M unit :=
  match roots with
  | [] => ret tt
  | r :: roots' => Load_root r ;;; Load_roots roots'
  end.

(** Lines 54-76.  The result is the returned [error]; [None] is nil. *)
Definition Load : M (option error) :=
  roots <- gets (λ tree, ndb_getRoots (ndb tree)) ;;
  match roots with
  | inr err => ret (Some err)
  | inl roots =>
      Load_roots roots ;;;
      (* tree.versions[tree.latestVersion] *)
      p <- gets (λ tree, versions tree !! latestVersion tree) ;;
      c <- Clone p ;;
      modify (set_working c) ;;;
      ret None
  end.

(** Lines 79-86. *)
Definition GetVersioned (key : bytes) (version : uint64) : M (Z * bytes * bool) :=
  t <- gets (λ tree, versions tree !! version) ;;
  match t with
  | Some t => gets (λ tree, ot_Get (ndb tree) (object tree t) key)
  | None => ret ((-1)%Z, [], false)
  end.

(** Lines 90-115. *)
Definition SaveVersion (version : uint64) : M (bytes * option error) :=
  saved <- gets (λ tree, versions tree !! version) ;;
  if saved is Some _ then
    ret ([], Some (errors_Errorf "version %d was already saved" [version]))
  else
  r <- working_root ;;
  if r is None then ret ([], Some ErrNilRoot) else
  if bool_decide (version = 0) then
    ret ([], Some (errors_New "version must be greater than zero"))
  else
  latest <- gets latestVersion ;;
  if bool_decide (version ≤ latest) then
    ret ([], Some (errors_Errorf "version must be greater than latest (%d <= %d)"
                     [version; latest]))
  else
  (* tree.latestVersion = version *)
  modify (set_latestVersion version) ;;;
  (* tree.versions[version] = tree.orphaningTree *)
  modify (λ tree, set_versions (<[version := working tree]> (versions tree)) tree) ;;;
  (* tree.orphaningTree.SaveVersion(version) *)
  modify (λ tree,
    let frozen := ot_SaveVersion version (object tree (working tree)) (ndb tree) in
    set_ndb frozen.2 (set_heap (<[working tree := frozen.1]> (heap tree)) tree)) ;;;
  (* tree.orphaningTree = tree.orphaningTree.Clone() *)
  w <- gets working ;;
  c <- Clone (Some w) ;;
  modify (set_working c) ;;;
  (* tree.ndb.SaveRoot(tree.root, version) *)
  r <- working_root ;;
  modify (λ tree, set_ndb (ndb_SaveRoot r version (ndb tree)) tree) ;;;
  (* tree.ndb.Commit() *)
  Commit ;;;
  (* return tree.root.hash, nil *)
  r <- working_root ;;
  match r with
  | None => raise nil_dereference
  | Some n => ret (hash n, None)
  end.

(** Lines 119-136. *)
Definition DeleteVersion (version : uint64) : M (option error) :=
  if bool_decide (version = 0) then
    ret (Some (errors_New "version must be greater than 0"))
  else
  latest <- gets latestVersion ;;
  if bool_decide (version = latest) then
    ret (Some (errors_Errorf "cannot delete latest saved version (%d)" [version]))
  else
  saved <- gets (λ tree, versions tree !! version) ;;
  if saved is None then ret (Some (errors_WithStack ErrVersionDoesNotExist)) else
  (* tree.ndb.DeleteVersion(version) *)
  modify (λ tree, set_ndb (ndb_DeleteVersion version (ndb tree)) tree) ;;;
  (* tree.ndb.Commit() *)
  Commit ;;;
  (* delete(tree.versions, version) *)
  modify (λ tree, set_versions (delete version (versions tree)) tree) ;;;
  ret None.

(** Lines 141-146. *)
Definition GetVersionedWithProof (key : bytes) (version : uint64)
    : M (bytes * option KeyProof * option error) :=
  t <- gets (λ tree, versions tree !! version) ;;
  match t with
  | Some t => gets (λ tree, ot_GetWithProof (ndb tree) (object tree t) key)
  | None => ret ([], None, Some (errors_WithStack ErrVersionDoesNotExist))
  end.

(** Lines 152-157. *)
Definition GetVersionedRangeWithProof (startKey endKey : bytes) (limit : Z)
    (version : uint64)
    : M (list bytes * list bytes * option KeyRangeProof * option error) :=
  t <- gets (λ tree, versions tree !! version) ;;
  match t with
  | Some t =>
      gets (λ tree, ot_GetRangeWithProof (ndb tree) (object tree t) startKey endKey limit)
  | None => ret ([], [], None, Some (errors_WithStack ErrVersionDoesNotExist))
  end.

(** Lines 161-166. *)
Definition GetVersionedFirstInRangeWithProof (startKey endKey : bytes)
    (version : uint64)
    : M (bytes * bytes * option KeyFirstInRangeProof * option error) :=
  t <- gets (λ tree, versions tree !! version) ;;
  match t with
  | Some t =>
      gets (λ tree, ot_GetFirstInRangeWithProof (ndb tree) (object tree t) startKey endKey)
  | None => ret ([], [], None, Some (errors_WithStack ErrVersionDoesNotExist))
  end.

(** Lines 170-175. *)
Definition GetVersionedLastInRangeWithProof (startKey endKey : bytes)
    (version : uint64)
    : M (bytes * bytes * option KeyLastInRangeProof * option error) :=
  t <- gets (λ tree, versions tree !! version) ;;
  match t with
  | Some t =>
      gets (λ tree, ot_GetLastInRangeWithProof (ndb tree) (object tree t) startKey endKey)
  | None => ret ([], [], None, Some (errors_WithStack ErrVersionDoesNotExist))
  end.

End VersionedTree.

(** ** Notions the properties are stated with *)

Section Statements.
Context `{C : Collaborators}.

(** The in-memory state that lines 105-111 of [SaveVersion] build before
    the commit: the working object frozen in place and registered under
    [V], its clone at a new address as the working tree, the root handed to
    the store. *)
Definition SaveVersion_staged (V : uint64) (tree : VersionedTree) : VersionedTree :=
  let frozen := ot_SaveVersion V (object tree (working tree)) (ndb tree) in
  let h := <[working tree := frozen.1]> (heap tree) in
  let c := fresh (dom h) in
  {| heap := <[c := ot_Clone frozen.1]> h;
     working := c;
     versions := <[V := working tree]> (versions tree);
     latestVersion := V;
     ndb := ndb_SaveRoot (root (ot_Clone frozen.1)) V frozen.2 |}.

(** The tree that one turn of the loop of [Load] builds for a root hash. *)
Definition loaded (db : nodeDB) (r : bytes) : orphaningTree IAVLNode Orphans :=
  ot_Load db r newOrphaningTree.

(** The version numbers of the root nodes that the stored root hashes load
    to, in the order of the loop of [Load]. *)
Definition root_versions (db : nodeDB) (roots : list bytes) : list N :=
  omap (λ r, version <$> root (loaded db r)) roots.

Definition max_version (vs : list N) : N := foldr N.max 0 vs.

(** Every key of the version map is positive and at most [latestVersion]. *)
Definition versions_valid (tree : VersionedTree) : Prop :=
  map_Forall (λ v _, 0 < v ∧ v ≤ latestVersion tree) (versions tree).

(** The root nodes in the store carry positive version numbers, as the nodes
    that [saveVersion(V)] stamps with a [V] accepted by [SaveVersion] do. *)
Definition stored_roots_positive (tree : VersionedTree) : Prop :=
  ∀ roots, ndb_getRoots (ndb tree) = inl roots →
    Forall (λ v, 0 < v) (root_versions (ndb tree) roots).

(** The calls a user of the file can make on a [*VersionedTree]. *)
Inductive call : Type :=
  | call_Load
  | call_SaveVersion (version : uint64)
  | call_DeleteVersion (version : uint64)
  | call_LatestVersion
  | call_VersionExists (version : uint64)
  | call_Tree
  | call_String
  | call_GetVersioned (key : bytes) (version : uint64)
  | call_GetVersionedWithProof (key : bytes) (version : uint64)
  | call_GetVersionedRangeWithProof (startKey endKey : bytes) (limit : Z) (version : uint64)
  | call_GetVersionedFirstInRangeWithProof (startKey endKey : bytes) (version : uint64)
  | call_GetVersionedLastInRangeWithProof (startKey endKey : bytes) (version : uint64).

(** The state a call leaves behind, whether it returns or panics. *)
Definition state_after (c : call) (tree : VersionedTree) : VersionedTree :=
  match c with
  | call_Load => (Load tree).2
  | call_SaveVersion v => (SaveVersion v tree).2
  | call_DeleteVersion v => (DeleteVersion v tree).2
  | call_LatestVersion => (LatestVersion tree).2
  | call_VersionExists v => (VersionExists v tree).2
  | call_Tree => (Tree tree).2
  | call_String => (String_ tree).2
  | call_GetVersioned k v => (GetVersioned k v tree).2
  | call_GetVersionedWithProof k v => (GetVersionedWithProof k v tree).2
  | call_GetVersionedRangeWithProof s e l v => (GetVersionedRangeWithProof s e l v tree).2
  | call_GetVersionedFirstInRangeWithProof s e v =>
      (GetVersionedFirstInRangeWithProof s e v tree).2
  | call_GetVersionedLastInRangeWithProof s e v =>
      (GetVersionedLastInRangeWithProof s e v tree).2
  end.

Definition run (calls : list call) (tree : VersionedTree) : VersionedTree :=
  foldl (λ tree c, state_after c tree) tree calls.

(** [latestVersion] is still at its zero value or is a key of the version
    map: what line 73 of [Load] relies on. *)
Definition latest_saved (tree : VersionedTree) : Prop :=
  latestVersion tree = 0 ∨ is_Some (versions tree !! latestVersion tree).

(** The pointers of the tree are kept apart: the working tree is an allocated
    object, every saved version points to an allocated object that is not
    the working tree, and no two versions point to the same object. *)
Definition separated (tree : VersionedTree) : Prop :=
  working tree ∈ dom (heap tree) ∧
  (∀ v l, versions tree !! v = Some l → l ∈ dom (heap tree) ∧ l ≠ working tree) ∧
  (∀ v1 v2 l, versions tree !! v1 = Some l → versions tree !! v2 = Some l → v1 = v2).

(** A method promoted from the embedded [*orphaningTree] (line 14), such as
    [Set] or [Remove], which another file declares: it runs on the object
    behind [tree.orphaningTree] and on the store that object points to.  [f]
    is what the method does to the two. *)
Definition working_method
    (f : orphaningTree IAVLNode Orphans * nodeDB → orphaningTree IAVLNode Orphans * nodeDB)
    (tree : VersionedTree) : VersionedTree :=
  let r := f (object tree (working tree), ndb tree) in
  set_ndb r.2 (set_heap (<[working tree := r.1]> (heap tree)) tree).

(** One step of a user of the tree: a call of this file or a promoted method
    on the working tree. *)
Inductive step : Type :=
  | step_call (c : call)
  | step_working
      (f : orphaningTree IAVLNode Orphans * nodeDB → orphaningTree IAVLNode Orphans * nodeDB).

Definition state_after_step (s : step) (tree : VersionedTree) : VersionedTree :=
  match s with
  | step_call c => state_after c tree
  | step_working f => working_method f tree
  end.

Definition run_steps (steps : list step) (tree : VersionedTree) : VersionedTree :=
  foldl (λ tree s, state_after_step s tree) tree steps.

End Statements.

(** ** A node store in memory *)

Module MemStore.

(** Modelled from the spec: a leaf node ([key], [value], [hash],
    [createdAtVersion]); the types behind [IAVLNode] and [nodeDB] are
    declared in other files of the package. *)
Record node : Type := mk_node {
  node_key : bytes;
  node_value : bytes;
  node_hash : bytes;
  node_version : uint64;
}.

(** Modelled from the spec: the Node Store, which "maps a node's content
    hash to its serialized form and maps a version number to that version's
    root hash" and commits batches atomically.  [commit_fails] makes every
    commit of the store fail, for the storage I/O failure of section 7. *)
Record store : Type := mk_store {
  store_nodes : list (bytes * node);
  store_roots : list (N * bytes);
  commit_fails : bool;
}.

Definition bytes_eqb (a b : bytes) : bool :=
  bool_decide (Byte.to_N <$> a = Byte.to_N <$> b).

Definition get_node (db : store) (h : bytes) : option node :=
  snd <$> find (λ e, bytes_eqb e.1 h) (store_nodes db).

Definition put_node (n : node) (db : store) : store :=
  mk_store ((node_hash n, n) :: store_nodes db) (store_roots db) (commit_fails db).

(** Modelled from the spec: [saveVersion(V)] "stamps [V] on any nodes
    created but not yet stamped" (a node not yet stamped carries version 0)
    and flushes the orphan list. *)
Definition stamp (v : uint64) (n : node) : node :=
  if bool_decide (node_version n = 0)
  then mk_node (node_key n) (node_value n) (node_hash n) v
  else n.

Definition save_version (v : uint64) (t : orphaningTree node (list bytes)) (db : store)
    : orphaningTree node (list bytes) * store :=
  (mk_orphaningTree (stamp v <$> root t) [],
   from_option (λ n, put_node (stamp v n) db) db (root t)).

Definition get (t : orphaningTree node (list bytes)) (key : bytes) : Z * bytes * bool :=
  match root t with
  | Some n => if bytes_eqb (node_key n) key then (0%Z, node_value n, true)
              else (0%Z, [], false)
  | None => (0%Z, [], false)
  end.

#[export] Instance collaborators : Collaborators := {|
  IAVLNode := node;
  version := node_version;
  hash := node_hash;
  Orphans := list bytes;
  no_orphans := [];
  nodeDB := store;
  DB := store;
  KeyProof := bytes;
  KeyRangeProof := bytes;
  KeyFirstInRangeProof := bytes;
  KeyLastInRangeProof := bytes;
  ErrNilRoot := fmt_Errorf "tree root is nil";
  newNodeDB := λ _ db, db;
  ndb_String := λ _, "";
  ndb_getRoots := λ db, inl (snd <$> store_roots db);
  ndb_SaveRoot := λ r v db,
    match r with
    | Some n => mk_store (store_nodes db) (store_roots db ++ [(v, node_hash n)])
                  (commit_fails db)
    | None => db
    end;
  ndb_DeleteVersion := λ v db,
    mk_store (store_nodes db) (filter (λ e, e.1 ≠ v) (store_roots db)) (commit_fails db);
  ndb_Commit := λ db, if commit_fails db then None else Some db;
  ot_Load := λ db h t, mk_orphaningTree (get_node db h) (orphans t);
  ot_SaveVersion := save_version;
  ot_Clone := λ t, mk_orphaningTree (root t) [];
  ot_Get := λ _ t key, get t key;
  ot_GetWithProof := λ _ t key, ((get t key).1.2, from_option (λ n, Some (node_hash n)) None (root t), None);
  ot_GetRangeWithProof := λ _ t _ _ _, ([], [], None, None);
  ot_GetFirstInRangeWithProof := λ _ t _ _, ([], [], None, None);
  ot_GetLastInRangeWithProof := λ _ t _ _, ([], [], None, None);
  ot_Clone_root := λ t, eq_refl;
  ot_SaveVersion_root := λ v t db H, proj2 (fmap_is_Some (stamp v) (root t)) H;
|}.

(** A store that holds nothing. *)
Definition empty_store (fails : bool) : store := mk_store [] [] fails.

(** The leaf ["a" -> "1"] with hash [aa], not yet stamped. *)
Definition leaf_a : node := mk_node [Byte.x61] [Byte.x31] [Byte.xaa] 0.

(** [NewVersionedTree(100, db)] on the store that holds nothing. *)
Definition new_tree (fails : bool) : VersionedTree :=
  NewVersionedTree 100 (empty_store fails).

(** A new tree whose working tree holds [leaf_a], as after [Set]. *)
Definition tree_a (fails : bool) : VersionedTree :=
  set_heap {[ 1%positive := mk_orphaningTree (Some leaf_a) [] ]} (new_tree fails).

(** The working root replaced by [n], as after a [Set] on the working tree. *)
Definition with_root (n : node) (tree : VersionedTree) : VersionedTree :=
  set_heap (<[working tree := mk_orphaningTree (Some n) []]> (heap tree)) tree.

(** The leaf ["b" -> "2"] with hash [bb], not yet stamped. *)
Definition leaf_b : node := mk_node [Byte.x62] [Byte.x32] [Byte.xbb] 0.

(** [tree_a] after [SaveVersion(1)], a [Set] and [SaveVersion(2)]. *)
Definition tree_12 : VersionedTree :=
  (SaveVersion 2 (with_root leaf_b (SaveVersion 1 (tree_a false)).2)).2.

(** A store that holds the roots of versions 1 and 2. *)
Definition store_12 : store :=
  mk_store [([Byte.xaa], stamp 1 leaf_a); ([Byte.xbb], stamp 2 leaf_b)]
    [(1, [Byte.xaa]); (2, [Byte.xbb])] false.

(** [NewVersionedTree(100, db)] on [store_12], before [Load]. *)
Definition unloaded_12 : VersionedTree := NewVersionedTree 100 store_12.

(** [Set] on the working tree, as far as the root goes: the root becomes
    [n]. *)
Definition set_root (n : node)
    (p : orphaningTree node (list bytes) * store) : orphaningTree node (list bytes) * store :=
  (mk_orphaningTree (Some n) (orphans p.1), p.2).

(** A session on a new tree: set, save 1, set, save 2, delete 1, load. *)
Definition session : list step :=
  [step_working (set_root leaf_a); step_call (call_SaveVersion 1);
   step_working (set_root leaf_b); step_call (call_SaveVersion 2);
   step_call (call_DeleteVersion 1); step_call call_Load].

(** What may follow on [tree_12] without deleting version 1. *)
Definition later : list step :=
  [step_working (set_root leaf_a); step_call (call_SaveVersion 3);
   step_call (call_DeleteVersion 2); step_call call_Load].

(** [tree_12] over a store whose commit fails. *)
Definition tree_12_failing : VersionedTree :=
  set_ndb (mk_store (store_nodes (ndb tree_12)) (store_roots (ndb tree_12)) true) tree_12.

(** A store whose second root hash has no node, and a new tree on it. *)
Definition store_missing : store :=
  mk_store [([Byte.xaa], stamp 1 leaf_a)] [(1, [Byte.xaa]); (2, [Byte.xbb])] false.

Definition unloaded_missing : VersionedTree := NewVersionedTree 100 store_missing.

End MemStore.

(** ** What each method computes *)

Section Equations.
Context `{C : Collaborators}.

Lemma object_insert_eq tree h l t :
  object (set_heap (<[l := t]> h) tree) l = t.
Proof. unfold object. simpl. by rewrite lookup_insert_eq. Qed.

Lemma SaveVersion_eq V tree :
  SaveVersion V tree =
    if versions tree !! V is Some _ then
      (Returns ([], Some (errors_Errorf "version %d was already saved" [V])), tree)
    else if root (object tree (working tree)) is None then
      (Returns ([], Some ErrNilRoot), tree)
    else if bool_decide (V = 0) then
      (Returns ([], Some (errors_New "version must be greater than zero")), tree)
    else if bool_decide (V ≤ latestVersion tree) then
      (Returns ([], Some (errors_Errorf "version must be greater than latest (%d <= %d)"
                           [V; latestVersion tree])), tree)
    else
      let staged := SaveVersion_staged V tree in
      match ndb_Commit (ndb staged) with
      | None => (Panics commit_failure, staged)
      | Some db =>
          match root (object staged (working staged)) with
          | None => (Panics nil_dereference, set_ndb db staged)
          | Some n => (Returns (hash n, None), set_ndb db staged)
          end
      end.
Proof.
  unfold SaveVersion, working_root, bind, gets, ret. simpl.
  destruct (versions tree !! V); [done|].
  destruct (root (object tree (working tree))); [|done].
  case_bool_decide; [done|]. case_bool_decide; [done|].
  unfold modify, Clone, alloc, Commit, bind, gets, raise, SaveVersion_staged. simpl.
  unfold object. simpl. rewrite !lookup_insert_eq. simpl.
  destruct (ndb_Commit _); simpl; [|done].
  unfold set_working, set_heap, set_ndb, set_versions, set_latestVersion; simpl.
  rewrite lookup_insert_eq. simpl. by destruct (root (ot_Clone _)).
Qed.

Lemma DeleteVersion_eq V tree :
  DeleteVersion V tree =
    if bool_decide (V = 0) then
      (Returns (Some (errors_New "version must be greater than 0")), tree)
    else if bool_decide (V = latestVersion tree) then
      (Returns (Some (errors_Errorf "cannot delete latest saved version (%d)" [V])), tree)
    else if versions tree !! V is None then
      (Returns (Some (errors_WithStack ErrVersionDoesNotExist)), tree)
    else
      let pending := set_ndb (ndb_DeleteVersion V (ndb tree)) tree in
      match ndb_Commit (ndb pending) with
      | None => (Panics commit_failure, pending)
      | Some db =>
          (Returns None, set_versions (delete V (versions tree)) (set_ndb db pending))
      end.
Proof.
  unfold DeleteVersion, bind, gets, ret. simpl.
  case_bool_decide; [done|]. case_bool_decide; [done|].
  destruct (versions tree !! V); [|done].
  unfold modify, Commit. simpl. by destruct (ndb_Commit _).
Qed.

Lemma Load_root_eq r tree :
  Load_root r tree =
    let t := fresh (dom (heap tree)) in
    let tree1 := set_heap (<[t := loaded (ndb tree) r]> (heap tree)) tree in
    match root (loaded (ndb tree) r) with
    | None => (Panics nil_dereference, tree1)
    | Some n =>
        (Returns tt,
         set_latestVersion (N.max (latestVersion tree) (version n))
           (set_versions (<[version n := t]> (versions tree)) tree1))
    end.
Proof.
  unfold Load_root, alloc, bind, gets, modify, raise, ret, loaded, object. simpl.
  rewrite !lookup_insert_eq, insert_insert_eq. simpl.
  destruct (root _) as [n|]; [|done]. simpl.
  case_bool_decide.
  - by rewrite N.max_r by lia.
  - rewrite N.max_l by lia. by destruct tree.
Qed.

(** The loop leaves the store, the working pointer and the objects already
    allocated as they are, in every completion. *)
Lemma Load_roots_frame roots tree :
  let tree' := (Load_roots roots tree).2 in
  ndb tree' = ndb tree ∧ working tree' = working tree ∧ heap tree ⊆ heap tree'.
Proof.
  revert tree. induction roots as [|r roots IH]; intros tree; simpl; [done|].
  unfold bind. rewrite Load_root_eq. simpl.
  assert (heap tree !! fresh (dom (heap tree)) = None) as Hfresh.
  { apply not_elem_of_dom, is_fresh. }
  destruct (root _) as [n|]; simpl.
  - match goal with |- context [Load_roots roots ?t] => specialize (IH t) end.
    destruct (Load_roots roots _) as [c tree'']. simpl in *.
    destruct IH as (-> & -> & Hsub). split_and!; [done..|].
    etrans; [|exact Hsub]. by apply insert_subseteq.
  - split_and!; [done..|]. by apply insert_subseteq.
Qed.
End Equations.

(** Case analysis along the guards of [SaveVersion] and [DeleteVersion];
    [tac] closes the goal of each guard that fires. *)
Ltac SaveVersion_guards tree V tac :=
  rewrite SaveVersion_eq;
  destruct (versions tree !! V); [tac|];
  destruct (root (object tree (working tree))); [|tac];
  case_bool_decide; [tac|]; case_bool_decide; [tac|]; simpl.

Ltac DeleteVersion_guards tree V tac :=
  rewrite DeleteVersion_eq;
  case_bool_decide; [tac|]; case_bool_decide; [tac|];
  destruct (versions tree !! V); [|tac]; simpl.

(** ** Saving and deleting versions *)

Section SaveDelete.
Context `{C : Collaborators}.

(** C1.  [SaveVersion] is strictly monotonic.  In every tree state a call
    with [V <= latestVersion] returns an error and leaves the tree as it was;
    and when a call [SaveVersion(V)] has succeeded, a second call with the
    same [V] fails with the "version V was already saved" error. *)
Theorem SaveVersion_strictly_monotonic (tree : VersionedTree) (V : uint64) :
  (V ≤ latestVersion tree →
   ∃ e, SaveVersion V tree = (Returns ([], Some e), tree)) ∧
  (∀ h tree', SaveVersion V tree = (Returns (h, None), tree') →
   SaveVersion V tree' =
     (Returns ([], Some (errors_Errorf "version %d was already saved" [V])), tree')).
Proof.
  split.
  - intros Hle. SaveVersion_guards tree V eauto. lia.
  - intros h tree'. SaveVersion_guards tree V done.
    destruct (ndb_Commit _) as [db|]; [|done].
    destruct (root (object _ _)); [|done].
    intros [= _ <-]. rewrite SaveVersion_eq. simpl.
    by rewrite lookup_insert_eq.
Qed.

(** C2, as the code has it.  [DeleteVersion(0)] fails with the "version must
    be greater than 0" error, whatever the version map holds.  For [V > 0]:
    [DeleteVersion(latestVersion)] fails with the "cannot delete latest saved
    version" error, and [DeleteVersion] of any other version that is not in
    the version map fails with [ErrVersionDoesNotExist].  The tree is
    unchanged in all three cases. *)
Theorem DeleteVersion_errors (tree : VersionedTree) (V : uint64) :
  (V = 0 →
   DeleteVersion V tree =
     (Returns (Some (errors_New "version must be greater than 0")), tree)) ∧
  (V ≠ 0 → V = latestVersion tree →
   DeleteVersion V tree =
     (Returns (Some (errors_Errorf "cannot delete latest saved version (%d)" [V])), tree)) ∧
  (V ≠ 0 → V ≠ latestVersion tree → versions tree !! V = None →
   DeleteVersion V tree =
     (Returns (Some (errors_WithStack ErrVersionDoesNotExist)), tree)).
Proof.
  rewrite DeleteVersion_eq. split_and!.
  - intros ->. by rewrite bool_decide_eq_true_2.
  - intros ? ->. by rewrite bool_decide_eq_false_2, bool_decide_eq_true_2.
  - intros ?? ->. by rewrite !bool_decide_eq_false_2.
Qed.

(** C3, as the code has it.  When the commit inside [SaveVersion(V)] fails,
    [latestVersion] and the version map have already been updated:
    [latestVersion] is [V] and [versions[V]] is the former working tree.  They
    are left as they were when [SaveVersion] rejects the call with an error,
    which it does before it updates anything. *)
Theorem SaveVersion_commit_failure (tree : VersionedTree) (V : uint64) :
  (∀ tree', SaveVersion V tree = (Panics commit_failure, tree') →
   latestVersion tree' = V ∧
   versions tree' = <[V := working tree]> (versions tree) ∧
   latestVersion tree < V ∧ versions tree !! V = None) ∧
  (∀ h e tree', SaveVersion V tree = (Returns (h, Some e), tree') → tree' = tree).
Proof.
  split.
  - intros tree'. SaveVersion_guards tree V done.
    destruct (ndb_Commit _) as [db|].
    + by destruct (root (object _ _)).
    + intros [= <-]. simpl. split_and!; [done..|lia|done].
  - intros h e tree'. SaveVersion_guards tree V congruence.
    destruct (ndb_Commit _) as [db|]; [|done].
    by destruct (root (object _ _)).
Qed.

(** C4.  On a tree whose working root is not nil, for [V] greater than
    [latestVersion] and not yet saved, [SaveVersion(V)] succeeds unless the
    store's commit fails.  Afterwards [versions[V]] is the former working
    tree object, frozen in place by [orphaningTree.SaveVersion(V)];
    [latestVersion] is [V]; the working tree is a new object, at an address
    that was not in use, whose contents are the clone of the frozen tree; and
    the bytes returned are the hash of the new working root. *)
Theorem SaveVersion_success (tree : VersionedTree) (V : uint64) (n : IAVLNode) :
  root (object tree (working tree)) = Some n →
  latestVersion tree < V →
  versions tree !! V = None →
  (SaveVersion V tree).1 ≠ Panics commit_failure →
  ∃ tree' n',
    SaveVersion V tree = (Returns (hash n', None), tree') ∧
    versions tree' !! V = Some (working tree) ∧
    object tree' (working tree) =
      (ot_SaveVersion V (object tree (working tree)) (ndb tree)).1 ∧
    latestVersion tree' = V ∧
    heap tree !! working tree' = None ∧
    working tree' ≠ working tree ∧
    object tree' (working tree') = ot_Clone (object tree' (working tree)) ∧
    root (object tree' (working tree')) = Some n'.
Proof.
  intros Hroot Hlt Hnew. rewrite SaveVersion_eq, Hnew, Hroot.
  rewrite !bool_decide_eq_false_2 by lia. simpl.
  destruct (ndb_Commit _) as [db|]; [|done]. intros _.
  set (frozen := ot_SaveVersion V (object tree (working tree)) (ndb tree)).
  set (h := <[working tree := frozen.1]> (heap tree)).
  assert (fresh (dom h) ∉ dom h) as Hfresh by apply is_fresh.
  assert (fresh (dom h) ≠ working tree) as Hne.
  { intros Heq. apply Hfresh. rewrite Heq. unfold h. set_solver. }
  assert (heap tree !! fresh (dom h) = None) as Hnone.
  { apply not_elem_of_dom. intros Hin. apply Hfresh. unfold h. set_solver. }
  unfold object at 1. simpl. rewrite lookup_insert_eq. simpl.
  destruct (ot_SaveVersion_root V (object tree (working tree)) (ndb tree))
    as [n' Hn']; [by rewrite Hroot|].
  fold frozen in Hn' |- *. rewrite ot_Clone_root, Hn'.
  eexists _, n'. split; [done|]. simpl. unfold object. simpl.
  fold frozen h. rewrite lookup_insert_eq, lookup_insert_ne by done.
  unfold h at 1 2. rewrite !lookup_insert_eq. simpl.
  split_and!; [done|done|done|exact Hnone|exact Hne| |by rewrite ot_Clone_root].
  unfold h. by rewrite lookup_insert_eq.
Qed.

(** C5.  After a successful [DeleteVersion(V)], [VersionExists(V)] is false;
    the entry of every other version in the version map, the working tree,
    [latestVersion] and the tree objects are as before; so a read of any
    other retained version still resolves to the same frozen tree. *)
Theorem DeleteVersion_frame (tree tree' : VersionedTree) (V : uint64) :
  DeleteVersion V tree = (Returns None, tree') →
  VersionExists V tree' = (Returns false, tree') ∧
  (∀ V', V' ≠ V → versions tree' !! V' = versions tree !! V') ∧
  (∀ V', V' ≠ V → (VersionExists V' tree').1 = (VersionExists V' tree).1) ∧
  working tree' = working tree ∧
  latestVersion tree' = latestVersion tree ∧
  heap tree' = heap tree ∧
  (∀ V' t key, V' ≠ V → versions tree !! V' = Some t →
     object tree' t = object tree t ∧
     GetVersioned key V' tree' =
       (Returns (ot_Get (ndb tree') (object tree t) key), tree') ∧
     GetVersionedWithProof key V' tree' =
       (Returns (ot_GetWithProof (ndb tree') (object tree t) key), tree')).
Proof.
  DeleteVersion_guards tree V done.
  destruct (ndb_Commit _) as [db|]; [|done]. intros [= <-]. simpl.
  split_and!; try done.
  - unfold VersionExists, gets. simpl. rewrite lookup_delete_eq.
    rewrite bool_decide_eq_false_2; [done|]. by intros [??].
  - intros V' ?. by rewrite lookup_delete_ne.
  - intros V' ?. unfold VersionExists, gets. simpl. by rewrite lookup_delete_ne.
  - intros V' t key ? Ht. split; [done|].
    unfold GetVersioned, GetVersionedWithProof, bind, gets. simpl.
    by rewrite lookup_delete_ne, Ht.
Qed.

End SaveDelete.

(** ** Versioned reads *)

Section Reads.
Context `{C : Collaborators}.

(** C6.  Each versioned read resolves [V] against the version map.  When
    [V] is absent no tree is consulted: [GetVersioned] returns
    [(-1, nil, false)] and the four proof variants return nil results with
    the error [ErrVersionDoesNotExist] ("version does not exist").  When [V]
    is present each returns what the corresponding method of that version's
    frozen tree returns.  In both cases the versioned tree is left as it
    was. *)
Theorem versioned_reads (tree : VersionedTree) (V : uint64) :
  (versions tree !! V = None →
   (∀ key, GetVersioned key V tree = (Returns ((-1)%Z, [], false), tree)) ∧
   (∀ key, GetVersionedWithProof key V tree =
      (Returns ([], None, Some (errors_WithStack ErrVersionDoesNotExist)), tree)) ∧
   (∀ s e limit, GetVersionedRangeWithProof s e limit V tree =
      (Returns ([], [], None, Some (errors_WithStack ErrVersionDoesNotExist)), tree)) ∧
   (∀ s e, GetVersionedFirstInRangeWithProof s e V tree =
      (Returns ([], [], None, Some (errors_WithStack ErrVersionDoesNotExist)), tree)) ∧
   (∀ s e, GetVersionedLastInRangeWithProof s e V tree =
      (Returns ([], [], None, Some (errors_WithStack ErrVersionDoesNotExist)), tree)) ∧
   Error (errors_WithStack ErrVersionDoesNotExist) = "version does not exist") ∧
  (∀ t, versions tree !! V = Some t →
   (∀ key, GetVersioned key V tree =
      (Returns (ot_Get (ndb tree) (object tree t) key), tree)) ∧
   (∀ key, GetVersionedWithProof key V tree =
      (Returns (ot_GetWithProof (ndb tree) (object tree t) key), tree)) ∧
   (∀ s e limit, GetVersionedRangeWithProof s e limit V tree =
      (Returns (ot_GetRangeWithProof (ndb tree) (object tree t) s e limit), tree)) ∧
   (∀ s e, GetVersionedFirstInRangeWithProof s e V tree =
      (Returns (ot_GetFirstInRangeWithProof (ndb tree) (object tree t) s e), tree)) ∧
   (∀ s e, GetVersionedLastInRangeWithProof s e V tree =
      (Returns (ot_GetLastInRangeWithProof (ndb tree) (object tree t) s e), tree))).
Proof.
  unfold GetVersioned, GetVersionedWithProof, GetVersionedRangeWithProof,
    GetVersionedFirstInRangeWithProof, GetVersionedLastInRangeWithProof,
    bind, gets, ret.
  split.
  - intros Habsent. simpl. rewrite Habsent. by split_and!.
  - intros t Hpresent. simpl. rewrite Hpresent. by split_and!.
Qed.

End Reads.

(** ** The version invariants *)

Section Invariants.
Context `{C : Collaborators}.

Lemma Load_roots_latestVersion roots tree :
  latestVersion tree ≤ latestVersion (Load_roots roots tree).2.
Proof.
  revert tree. induction roots as [|r roots IH]; intros tree; simpl; [done|].
  unfold bind. rewrite Load_root_eq. simpl.
  destruct (root _) as [n|]; simpl; [|done].
  match goal with |- context [Load_roots roots ?t] => specialize (IH t) end.
  destruct (Load_roots roots _) as [[] tree'']; simpl in *; lia.
Qed.

(** [Load]'s last step: the clone of [versions[latestVersion]] becomes the
    working tree; the version map and [latestVersion] stay. *)
Lemma Load_eq tree :
  Load tree =
    match ndb_getRoots (ndb tree) with
    | inr err => (Returns (Some err), tree)
    | inl roots =>
        match Load_roots roots tree with
        | (Panics p, tree1) => (Panics p, tree1)
        | (Returns _, tree1) =>
            match versions tree1 !! latestVersion tree1 with
            | None => (Panics nil_dereference, tree1)
            | Some l =>
                let c := fresh (dom (heap tree1)) in
                (Returns None,
                 set_working c
                   (set_heap (<[c := ot_Clone (object tree1 l)]> (heap tree1)) tree1))
            end
        end
    end.
Proof.
  unfold Load, bind, gets. simpl.
  destruct (ndb_getRoots _) as [roots|err]; [|done].
  destruct (Load_roots roots tree) as [[[]|p] tree1]; [|done]. simpl.
  by destruct (versions tree1 !! latestVersion tree1).
Qed.

Lemma Load_versions tree :
  ∃ roots tree1,
    tree1 = (Load_roots roots tree).2 ∧
    versions (Load tree).2 = versions tree1 ∧
    latestVersion (Load tree).2 = latestVersion tree1 ∧
    (roots = [] ∨ ndb_getRoots (ndb tree) = inl roots).
Proof.
  rewrite Load_eq. destruct (ndb_getRoots _) as [roots|err].
  - exists roots, (Load_roots roots tree).2.
    destruct (Load_roots roots tree) as [[[]|p] tree1]; simpl; [|by auto].
    destruct (versions tree1 !! latestVersion tree1); simpl; by auto.
  - exists [], tree. simpl. by auto.
Qed.

Lemma state_after_latestVersion c tree :
  latestVersion tree ≤ latestVersion (state_after c tree).
Proof.
  destruct c as [|V|V| | | | |k V|k V|s e l V|s e V|s e V]; simpl; try done;
    try (unfold GetVersioned, GetVersionedWithProof, GetVersionedRangeWithProof,
           GetVersionedFirstInRangeWithProof, GetVersionedLastInRangeWithProof,
           bind, gets, ret; simpl; by destruct (versions tree !! V)).
  - destruct (Load_versions tree) as (roots & tree1 & -> & _ & -> & _).
    apply Load_roots_latestVersion.
  - SaveVersion_guards tree V done.
    destruct (ndb_Commit _); simpl; [destruct (root _); simpl|]; lia.
  - DeleteVersion_guards tree V done. by destruct (ndb_Commit _).
Qed.

Lemma root_versions_cons db r roots :
  root_versions db (r :: roots) =
    match root (loaded db r) with
    | Some n => version n :: root_versions db roots
    | None => root_versions db roots
    end.
Proof. unfold root_versions. simpl. by destruct (root (loaded db r)). Qed.

Lemma Load_roots_keys (P : N → Prop) roots tree :
  Forall P (root_versions (ndb tree) roots) →
  map_Forall (λ v _, P v ∧ v ≤ latestVersion tree) (versions tree) →
  map_Forall (λ v _, P v ∧ v ≤ latestVersion (Load_roots roots tree).2)
    (versions (Load_roots roots tree).2).
Proof.
  revert tree. induction roots as [|r roots IH]; intros tree; [done|].
  rewrite root_versions_cons. simpl. unfold bind. rewrite Load_root_eq. simpl.
  destruct (root _) as [n|]; simpl; [|done].
  intros [Hn Hroots]%Forall_cons Hvalid.
  match goal with |- context [Load_roots roots ?t] => specialize (IH t) end.
  destruct (Load_roots roots _) as [[] tree'']; simpl in *; apply IH; try done.
  all: apply map_Forall_insert_2; [split; [done|lia]|].
  all: eapply map_Forall_impl; [exact Hvalid|]; simpl; intros ?? [??]; split; [done|lia].
Qed.

(** C9.  Every key of the version map is positive and at most
    [latestVersion]: this holds of a new tree and is kept by [SaveVersion]
    and [DeleteVersion], returning or panicking, and by [Load] when the root
    nodes in the store carry positive version numbers; the bound by
    [latestVersion] is kept by [Load] whatever the store holds. *)
Theorem versions_valid_invariant :
  (∀ cacheSize db, versions_valid (NewVersionedTree cacheSize db)) ∧
  (∀ tree V, versions_valid tree → versions_valid (SaveVersion V tree).2) ∧
  (∀ tree V, versions_valid tree → versions_valid (DeleteVersion V tree).2) ∧
  (∀ tree, versions_valid tree → stored_roots_positive tree →
     versions_valid (Load tree).2) ∧
  (∀ tree, versions_valid tree →
     map_Forall (λ v _, v ≤ latestVersion (Load tree).2) (versions (Load tree).2)).
Proof.
  unfold versions_valid. split_and!.
  - intros cacheSize db. simpl. apply map_Forall_empty.
  - intros tree V Hvalid. SaveVersion_guards tree V done.
    assert (map_Forall (λ v _, 0 < v ∧ v ≤ V) (<[V := working tree]> (versions tree))).
    { apply map_Forall_insert_2; [lia|].
      eapply map_Forall_impl; [exact Hvalid|]. simpl. lia. }
    destruct (ndb_Commit _); simpl; [by destruct (root _)|done].
  - intros tree V Hvalid. DeleteVersion_guards tree V done.
    destruct (ndb_Commit _); simpl; [|done]. by apply map_Forall_delete.
  - intros tree Hvalid Hstore.
    destruct (Load_versions tree) as (roots & tree1 & -> & -> & -> & Hroots).
    apply (Load_roots_keys (λ v, 0 < v)); [|done].
    destruct Hroots as [->|Hroots]; [by apply Forall_nil|by apply Hstore].
  - intros tree Hvalid.
    destruct (Load_versions tree) as (roots & tree1 & -> & -> & -> & _).
    eapply map_Forall_impl.
    + apply (Load_roots_keys (λ _, True)); [by apply Forall_true|].
      eapply map_Forall_impl; [exact Hvalid|]. simpl. by intros ?? [??].
    + simpl. by intros ?? [??].
Qed.

(** C7.  [latestVersion] never decreases: after any sequence of calls on the
    tree ([Load], [SaveVersion], [DeleteVersion] or any read; returning or
    panicking), [LatestVersion()] returns at least what it returned before. *)
Theorem LatestVersion_monotone (calls : list call) (tree : VersionedTree) (v v' : uint64) :
  (LatestVersion tree).1 = Returns v →
  (LatestVersion (run calls tree)).1 = Returns v' →
  v ≤ v'.
Proof.
  unfold LatestVersion, gets. simpl. intros [= <-] [= <-].
  revert tree. induction calls as [|c calls IH]; intros tree; simpl; [done|].
  etrans; [apply (state_after_latestVersion c)|apply IH].
Qed.

End Invariants.

(** ** Loading *)

Section Loading.
Context `{C : Collaborators}.


(** A version number among those of the stored roots has a last root that
    carries it. *)
Lemma root_versions_last db roots v :
  v ∈ root_versions db roots →
  ∃ i r n, roots !! i = Some r ∧ root (loaded db r) = Some n ∧ version n = v ∧
           v ∉ root_versions db (drop (S i) roots).
Proof.
  induction roots as [|r roots IH]; [by intros ?%elem_of_nil|].
  rewrite root_versions_cons. intros Hin.
  destruct (decide (v ∈ root_versions db roots)) as [Hlater|Hlater].
  - destruct (IH Hlater) as (i & r' & n & ? & ? & ? & ?). by exists (S i), r', n.
  - destruct (root (loaded db r)) as [n|] eqn:Hn; [|done].
    apply elem_of_cons in Hin as [->|?]; [|done].
    exists 0%nat, r, n. simpl. by rewrite ?drop_0.
Qed.

(** The loop of [Load] when every stored root loads to a node: it returns,
    [latestVersion] is raised to the largest root version, versions that no
    root carries keep their entry, and each root that is the last one of its
    version is registered under it, at an address that was not in use. *)
Lemma Load_roots_returns roots tree :
  Forall (λ r, is_Some (root (loaded (ndb tree) r))) roots →
  ∃ tree',
    Load_roots roots tree = (Returns tt, tree') ∧
    latestVersion tree' =
      N.max (latestVersion tree) (max_version (root_versions (ndb tree) roots)) ∧
    (∀ v, v ∉ root_versions (ndb tree) roots → versions tree' !! v = versions tree !! v) ∧
    (∀ i r n, roots !! i = Some r → root (loaded (ndb tree) r) = Some n →
       version n ∉ root_versions (ndb tree) (drop (S i) roots) →
       ∃ l, versions tree' !! version n = Some l ∧
            heap tree' !! l = Some (loaded (ndb tree) r) ∧
            heap tree !! l = None).
Proof.
  revert tree. induction roots as [|r roots IH]; intros tree Hall.
  { exists tree. simpl. split_and!; [done|lia|done|]. by intros []. }
  apply Forall_cons in Hall as [[n Hn] Hall].
  pose proof (Load_roots_frame roots) as Hframe.
  rewrite root_versions_cons, Hn. simpl. unfold bind. rewrite Load_root_eq, Hn. simpl.
  set (t := fresh (dom (heap tree))).
  assert (heap tree !! t = None) as Hfresh by apply not_elem_of_dom, is_fresh.
  match goal with |- context [Load_roots roots ?t] =>
    specialize (IH t Hall); specialize (Hframe t) end.
  destruct IH as (tree' & Hrun & Hlatest & Hkeep & Hreg).
  rewrite Hrun in Hframe |- *. simpl in *. destruct Hframe as (_ & _ & Hsub).
  exists tree'. split_and!; [done|lia| |].
  - intros v [Hne Hv]%not_elem_of_cons. by rewrite Hkeep, lookup_insert_ne.
  - intros [|i] r' n' Hr' Hn' Hlast; simpl in *.
    + injection Hr' as <-. rewrite Hn in Hn'. injection Hn' as <-.
      rewrite ?drop_0 in Hlast. exists t. split_and!; [|by eapply lookup_weaken, Hsub;
        apply lookup_insert_eq|done].
      by rewrite Hkeep, lookup_insert_eq.
    + destruct (Hreg i r' n' Hr' Hn' Hlast) as (l & ? & ? & Hl).
      exists l. split_and!; [done..|].
      destruct (decide (l = t)) as [->|]; [done|]. by rewrite lookup_insert_ne in Hl.
Qed.


(** C10.  On a tree without saved versions ([latestVersion] is 0 and the
    version map has no entry for it), when [getRoots] returns no roots,
    [Load] looks up [versions[0]], finds nil and calls [Clone] on it: the call
    panics on the nil dereference, returns no error and leaves the tree as it
    was.  So a [Load] on such a tree that returns at all had at least one
    root to load. *)
Theorem Load_without_roots (tree : VersionedTree) :
  latestVersion tree = 0 →
  versions tree !! 0 = None →
  (ndb_getRoots (ndb tree) = inl [] →
   Load tree = bind (Clone None) (λ c, bind (modify (set_working c)) (λ _, ret None)) tree ∧
   Load tree = (Panics nil_dereference, tree)) ∧
  (∀ roots e tree', ndb_getRoots (ndb tree) = inl roots →
     Load tree = (Returns e, tree') → roots ≠ []).
Proof.
  intros Hlatest Habsent.
  assert (ndb_getRoots (ndb tree) = inl [] →
          Load tree = (Panics nil_dereference, tree)) as Hpanic.
  { intros Hroots. rewrite Load_eq, Hroots. simpl. by rewrite Hlatest, Habsent. }
  split.
  - intros Hroots. split; [|by apply Hpanic].
    unfold Load, bind at 1 2, gets. simpl. rewrite Hroots. simpl.
    unfold bind at 1. simpl. by rewrite Hlatest, Habsent.
  - intros roots e tree' Hroots Hload ->. rewrite Hpanic in Hload; done.
Qed.

End Loading.

(** ** The properties on the node store in memory *)

Lemma SaveVersion_strictly_monotonic_witness :
  (∃ e, SaveVersion 1 MemStore.tree_12 = (Returns ([], Some e), MemStore.tree_12)) ∧
  SaveVersion 1 (SaveVersion 1 (MemStore.tree_a false)).2 =
    (Returns ([], Some (errors_New "version 1 was already saved")),
     (SaveVersion 1 (MemStore.tree_a false)).2).
Proof.
  split.
  - apply (proj1 (SaveVersion_strictly_monotonic MemStore.tree_12 1)).
    vm_compute. discriminate.
  - apply (proj2 (SaveVersion_strictly_monotonic (MemStore.tree_a false) 1) [Byte.xaa]).
    vm_compute. reflexivity.
Defined.

(** C2 as stated fails at [V = 0]: version 0 is not in the version map of a
    new tree, and [DeleteVersion(0)] does not fail with
    [ErrVersionDoesNotExist]. *)
Lemma DeleteVersion_zero_counterexample :
  versions (MemStore.new_tree false) !! 0 = None ∧
  (DeleteVersion 0 (MemStore.new_tree false)).1 =
    Returns (Some (errors_New "version must be greater than 0")) ∧
  (DeleteVersion 0 (MemStore.new_tree false)).1 ≠
    Returns (Some (errors_WithStack ErrVersionDoesNotExist)).
Proof. split_and!; [reflexivity|reflexivity|vm_compute; discriminate]. Qed.

Lemma DeleteVersion_errors_witness :
  DeleteVersion 0 MemStore.tree_12 =
    (Returns (Some (errors_New "version must be greater than 0")), MemStore.tree_12) ∧
  DeleteVersion 2 MemStore.tree_12 =
    (Returns (Some (errors_New "cannot delete latest saved version (2)")),
     MemStore.tree_12) ∧
  DeleteVersion 3 MemStore.tree_12 =
    (Returns (Some (errors_WithStack ErrVersionDoesNotExist)), MemStore.tree_12).
Proof.
  split_and!.
  - apply (proj1 (DeleteVersion_errors MemStore.tree_12 0)). reflexivity.
  - apply (proj1 (proj2 (DeleteVersion_errors MemStore.tree_12 2))).
    + discriminate.
    + vm_compute. reflexivity.
  - apply (proj2 (proj2 (DeleteVersion_errors MemStore.tree_12 3))).
    + discriminate.
    + vm_compute. discriminate.
    + vm_compute. reflexivity.
Defined.

(** C3 as stated fails on a store whose commit fails: [SaveVersion(1)] ends
    in the commit failure, and [latestVersion] and the version map have
    changed. *)
Lemma SaveVersion_commit_failure_counterexample :
  (SaveVersion 1 (MemStore.tree_a true)).1 = Panics commit_failure ∧
  latestVersion (MemStore.tree_a true) = 0 ∧
  latestVersion (SaveVersion 1 (MemStore.tree_a true)).2 = 1 ∧
  versions (MemStore.tree_a true) !! 1 = None ∧
  versions (SaveVersion 1 (MemStore.tree_a true)).2 !! 1 = Some 1%positive ∧
  ¬ (versions (SaveVersion 1 (MemStore.tree_a true)).2 = versions (MemStore.tree_a true) ∧
     latestVersion (SaveVersion 1 (MemStore.tree_a true)).2 =
       latestVersion (MemStore.tree_a true)).
Proof.
  split_and!; [vm_compute; reflexivity..|].
  intros [_ Hlatest]. vm_compute in Hlatest. discriminate.
Qed.

Lemma SaveVersion_commit_failure_witness :
  latestVersion (SaveVersion 1 (MemStore.tree_a true)).2 = 1 ∧
  versions (SaveVersion 1 (MemStore.tree_a true)).2 =
    <[1 := working (MemStore.tree_a true)]> (versions (MemStore.tree_a true)) ∧
  latestVersion (MemStore.tree_a true) < 1 ∧
  versions (MemStore.tree_a true) !! 1 = None.
Proof.
  apply (proj1 (SaveVersion_commit_failure (MemStore.tree_a true) 1)).
  vm_compute. reflexivity.
Defined.

Lemma SaveVersion_success_witness :
  ∃ tree' n',
    SaveVersion 1 (MemStore.tree_a false) = (Returns (hash n', None), tree') ∧
    versions tree' !! 1 = Some (working (MemStore.tree_a false)) ∧
    object tree' (working (MemStore.tree_a false)) =
      (ot_SaveVersion 1 (object (MemStore.tree_a false) (working (MemStore.tree_a false)))
         (ndb (MemStore.tree_a false))).1 ∧
    latestVersion tree' = 1 ∧
    heap (MemStore.tree_a false) !! working tree' = None ∧
    working tree' ≠ working (MemStore.tree_a false) ∧
    object tree' (working tree') =
      ot_Clone (object tree' (working (MemStore.tree_a false))) ∧
    root (object tree' (working tree')) = Some n'.
Proof.
  apply (SaveVersion_success (MemStore.tree_a false) 1 MemStore.leaf_a).
  - reflexivity.
  - reflexivity.
  - reflexivity.
  - vm_compute. discriminate.
Defined.

Lemma DeleteVersion_frame_witness :
  VersionExists 1 (DeleteVersion 1 MemStore.tree_12).2 =
    (Returns false, (DeleteVersion 1 MemStore.tree_12).2) ∧
  versions (DeleteVersion 1 MemStore.tree_12).2 !! 2 = versions MemStore.tree_12 !! 2 ∧
  GetVersioned [Byte.x62] 2 (DeleteVersion 1 MemStore.tree_12).2 =
    (Returns (0%Z, [Byte.x32], true), (DeleteVersion 1 MemStore.tree_12).2).
Proof.
  assert (DeleteVersion 1 MemStore.tree_12 =
            (Returns None, (DeleteVersion 1 MemStore.tree_12).2)) as Hdelete.
  { vm_compute. reflexivity. }
  destruct (DeleteVersion_frame _ _ _ Hdelete) as (Hgone & Hkeep & _ & _ & _ & _ & Hread).
  split_and!.
  - exact Hgone.
  - apply Hkeep. discriminate.
  - destruct (Hread 2 2%positive [Byte.x62]) as (_ & -> & _).
    + discriminate.
    + vm_compute. reflexivity.
    + vm_compute. reflexivity.
Defined.

Lemma versioned_reads_witness :
  GetVersioned [Byte.x61] 3 MemStore.tree_12 =
    (Returns ((-1)%Z, [], false), MemStore.tree_12) ∧
  GetVersionedWithProof [Byte.x61] 3 MemStore.tree_12 =
    (Returns ([], None, Some (errors_WithStack ErrVersionDoesNotExist)), MemStore.tree_12) ∧
  GetVersioned [Byte.x61] 1 MemStore.tree_12 =
    (Returns (0%Z, [Byte.x31], true), MemStore.tree_12).
Proof.
  destruct (versioned_reads MemStore.tree_12 3) as [Habsent _].
  destruct (versioned_reads MemStore.tree_12 1) as [_ Hpresent].
  destruct Habsent as (Hget & Hproof & _); [vm_compute; reflexivity|].
  destruct (Hpresent 1%positive) as (Hget1 & _); [vm_compute; reflexivity|].
  split_and!; [apply Hget|apply Hproof|].
  rewrite Hget1. vm_compute. reflexivity.
Defined.

Lemma LatestVersion_monotone_witness :
  (LatestVersion (MemStore.tree_a false)).1 = Returns 0 ∧
  (LatestVersion
     (run [call_SaveVersion 1; call_DeleteVersion 1; call_Load;
           call_GetVersioned [Byte.x61] 1] (MemStore.tree_a false))).1 = Returns 1 ∧
  0 ≤ 1.
Proof.
  assert ((LatestVersion (MemStore.tree_a false)).1 = Returns 0) as Hbefore.
  { vm_compute. reflexivity. }
  assert ((LatestVersion
             (run [call_SaveVersion 1; call_DeleteVersion 1; call_Load;
                   call_GetVersioned [Byte.x61] 1] (MemStore.tree_a false))).1
          = Returns 1) as Hafter.
  { vm_compute. reflexivity. }
  split_and!; [exact Hbefore|exact Hafter|].
  exact (LatestVersion_monotone _ _ 0 1 Hbefore Hafter).
Defined.


Lemma versions_valid_invariant_witness :
  versions_valid (MemStore.new_tree false) ∧
  versions_valid (SaveVersion 1 (MemStore.tree_a false)).2 ∧
  versions_valid (DeleteVersion 1 (SaveVersion 1 (MemStore.tree_a false)).2).2 ∧
  versions_valid (Load MemStore.unloaded_12).2.
Proof.
  destruct (versions_valid_invariant (C := MemStore.collaborators))
    as (Hnew & Hsave & Hdelete & Hload & _).
  assert (versions_valid (MemStore.tree_a false)) as Ha by apply map_Forall_empty.
  split_and!.
  - apply Hnew.
  - apply Hsave, Ha.
  - apply Hdelete, Hsave, Ha.
  - apply Hload; [apply map_Forall_empty|].
    intros roots [= <-]. vm_compute. by repeat constructor.
Defined.

Lemma Load_without_roots_witness :
  Load (MemStore.new_tree false) = (Panics nil_dereference, MemStore.new_tree false).
Proof.
  destruct (Load_without_roots (MemStore.new_tree false)) as [Hpanic _].
  - reflexivity.
  - reflexivity.
  - apply Hpanic. reflexivity.
Defined.

(** ** The pointer structure *)

Section Pointers.
Context `{C : Collaborators}.

Lemma fresh_not_allocated (h : gmap positive (orphaningTree IAVLNode Orphans)) :
  h !! fresh (dom h) = None.
Proof. apply not_elem_of_dom, is_fresh. Qed.

Lemma fresh_insert_dom (h : gmap positive (orphaningTree IAVLNode Orphans)) o l :
  l ∈ dom h → l ∈ dom (<[fresh (dom h) := o]> h) ∧ l ≠ fresh (dom h).
Proof.
  intros Hl. split.
  - rewrite dom_insert_L. by apply elem_of_union_r.
  - intros ->. by apply (is_fresh (dom h)).
Qed.

(** The heap a call leaves behind: no object is freed, only the working
    object and objects at new addresses are written, and the working pointer
    stays or moves to a new address. *)
Lemma SaveVersion_heap V tree :
  dom (heap tree) ⊆ dom (heap (SaveVersion V tree).2) ∧
  (∀ l, l ∈ dom (heap tree) → l ≠ working tree →
     heap (SaveVersion V tree).2 !! l = heap tree !! l) ∧
  (working (SaveVersion V tree).2 = working tree ∨
   working (SaveVersion V tree).2 ∉ dom (heap tree)).
Proof.
  SaveVersion_guards tree V ltac:(by auto).
  set (h := <[working tree := _]> (heap tree)).
  assert (fresh (dom h) ∉ dom h) as Hfresh by apply is_fresh.
  assert (dom (heap tree) ⊆ dom h) as Hdom by (unfold h; set_solver).
  assert (let staged := SaveVersion_staged V tree in
          dom (heap tree) ⊆ dom (heap staged) ∧
          (∀ l, l ∈ dom (heap tree) → l ≠ working tree →
             heap staged !! l = heap tree !! l) ∧
          (working staged = working tree ∨ working staged ∉ dom (heap tree)))
    as Hstaged.
  { simpl. fold h. split_and!.
    - set_solver.
    - intros l Hl Hne. rewrite lookup_insert_ne by set_solver.
      unfold h. by rewrite lookup_insert_ne.
    - right. set_solver. }
  destruct (ndb_Commit _); simpl; [by destruct (root _)|done].
Qed.

Lemma Load_heap tree :
  heap tree ⊆ heap (Load tree).2 ∧
  (working (Load tree).2 = working tree ∨
   working (Load tree).2 ∉ dom (heap tree)).
Proof.
  rewrite Load_eq. destruct (ndb_getRoots _) as [roots|err]; [|by auto].
  pose proof (Load_roots_frame roots tree) as Hframe.
  destruct (Load_roots roots tree) as [[[]|p] tree1]; simpl in *;
    destruct Hframe as (_ & Hworking & Hsub); [|by auto].
  destruct (versions tree1 !! latestVersion tree1); simpl; [|by auto].
  pose proof (fresh_not_allocated (heap tree1)) as Hfresh. split.
  - etrans; [exact Hsub|]. by apply insert_subseteq.
  - right. intros Hin%elem_of_dom. apply (lookup_weaken_is_Some _ _ _ Hin) in Hsub.
    rewrite Hfresh in Hsub. by destruct Hsub.
Qed.

Lemma state_after_step_heap s tree :
  dom (heap tree) ⊆ dom (heap (state_after_step s tree)) ∧
  (∀ l, l ∈ dom (heap tree) → l ≠ working tree →
     heap (state_after_step s tree) !! l = heap tree !! l) ∧
  (working (state_after_step s tree) = working tree ∨
   working (state_after_step s tree) ∉ dom (heap tree)).
Proof.
  destruct s as [[|V|V| | | | |k V|k V|s e l V|s e V|s e V]|f]; simpl;
    try (by auto);
    try (unfold GetVersioned, GetVersionedWithProof, GetVersionedRangeWithProof,
           GetVersionedFirstInRangeWithProof, GetVersionedLastInRangeWithProof,
           bind, gets, ret; simpl; destruct (versions tree !! V); by auto).
  - destruct (Load_heap tree) as [Hsub Hworking]. split_and!; [|intros l Hl _|done].
    + by apply subseteq_dom.
    + apply elem_of_dom in Hl as [t Ht]. rewrite Ht. by eapply lookup_weaken.
  - apply SaveVersion_heap.
  - DeleteVersion_guards tree V ltac:(by auto). destruct (ndb_Commit _); by auto.
  - split_and!; [set_solver| |by auto]. intros l _ Hne. by rewrite lookup_insert_ne.
Qed.

Lemma run_steps_object steps tree l :
  l ∈ dom (heap tree) → l ≠ working tree →
  object (run_steps steps tree) l = object tree l.
Proof.
  revert tree. induction steps as [|s steps IH]; intros tree Hl Hne; [done|].
  destruct (state_after_step_heap s tree) as (Hdom & Hkeep & Hworking).
  change (object (run_steps steps (state_after_step s tree)) l = object tree l).
  rewrite IH.
  - unfold object. by rewrite Hkeep.
  - by apply Hdom.
  - destruct Hworking as [->|Hnew]; [done|]. by intros Heq; rewrite Heq in Hl.
Qed.

(** Registering an object at a new address under a version keeps the
    pointers apart, whatever [latestVersion] and the store become. *)
Lemma separated_register tree tree' t v :
  separated tree → t ∉ dom (heap tree) →
  {[t]} ∪ dom (heap tree) ⊆ dom (heap tree') →
  working tree' = working tree →
  versions tree' = <[v := t]> (versions tree) →
  separated tree'.
Proof.
  intros (Hworking & Hsaved & Hinj) Hnew Hdom Hw Hv.
  unfold separated. rewrite Hw, Hv. split_and!.
  - set_solver - Hsaved Hinj.
  - intros v' l. destruct (decide (v = v')) as [<-|Hne].
    + rewrite lookup_insert_eq. intros [= <-]. split; [set_solver - Hsaved Hinj|].
      by intros Heq; rewrite Heq in Hnew.
    + rewrite lookup_insert_ne by done. intros Hl.
      destruct (Hsaved _ _ Hl). split; [set_solver - Hsaved Hinj|done].
  - intros v1 v2 l.
    destruct (decide (v = v1)) as [<-|Hne1], (decide (v = v2)) as [<-|Hne2];
      rewrite ?lookup_insert_eq, ?lookup_insert_ne by done; [done| | |by apply Hinj].
    + intros [= <-] Hl. by destruct (Hsaved _ _ Hl).
    + intros Hl [= <-]. by destruct (Hsaved _ _ Hl).
Qed.

(** Moving the working pointer to a new object keeps the pointers apart. *)
Lemma separated_move tree tree' :
  separated tree → working tree' ∉ dom (heap tree) →
  {[working tree']} ∪ dom (heap tree) ⊆ dom (heap tree') →
  versions tree' = versions tree →
  separated tree'.
Proof.
  intros (Hworking & Hsaved & Hinj) Hnew Hdom Hv.
  unfold separated. rewrite Hv. split_and!; [set_solver - Hsaved Hinj| |done].
  intros v l Hl. destruct (Hsaved _ _ Hl) as [Hin _].
  split; [set_solver - Hsaved Hinj|]. by intros Heq; rewrite Heq in Hin.
Qed.

(** Writing or allocating objects keeps the pointers apart. *)
Lemma separated_write tree tree' :
  separated tree → dom (heap tree) ⊆ dom (heap tree') →
  working tree' = working tree → versions tree' = versions tree →
  separated tree'.
Proof.
  intros (Hworking & Hsaved & Hinj) Hdom Hw Hv.
  unfold separated. rewrite Hw, Hv. split_and!; [set_solver - Hsaved Hinj| |done].
  intros v l Hl. destruct (Hsaved _ _ Hl). split; [set_solver - Hsaved Hinj|done].
Qed.

Lemma Load_roots_separated roots tree :
  separated tree → separated (Load_roots roots tree).2.
Proof.
  revert tree. induction roots as [|r roots IH]; intros tree Hsep; simpl; [done|].
  unfold bind. rewrite Load_root_eq. simpl.
  pose proof (is_fresh (dom (heap tree))) as Hfresh.
  destruct (root _) as [n|]; simpl.
  - match goal with |- context [Load_roots roots ?t] => specialize (IH t) end.
    destruct (Load_roots roots _) as [[[]|p] tree'']; simpl in *; apply IH;
      (eapply separated_register; [exact Hsep|exact Hfresh|simpl; set_solver|done..]).
  - eapply separated_write; [exact Hsep|simpl; set_solver|done..].
Qed.

Lemma state_after_step_separated s tree :
  separated tree → separated (state_after_step s tree).
Proof.
  intros Hsep.
  destruct s as [[|V|V| | | | |k V|k V|s e l V|s e V|s e V]|f]; simpl;
    try done;
    try (unfold GetVersioned, GetVersionedWithProof, GetVersionedRangeWithProof,
           GetVersionedFirstInRangeWithProof, GetVersionedLastInRangeWithProof,
           bind, gets, ret; simpl; by destruct (versions tree !! V)).
  - rewrite Load_eq. destruct (ndb_getRoots _) as [roots|err]; [|done].
    pose proof (Load_roots_separated roots tree Hsep) as Hsep1.
    destruct (Load_roots roots tree) as [[[]|p] tree1]; simpl in *; [|done].
    destruct (versions tree1 !! latestVersion tree1); simpl; [|done].
    eapply separated_move; [exact Hsep1|apply is_fresh|simpl; set_solver|done].
  - SaveVersion_guards tree V done.
    assert (separated (SaveVersion_staged V tree)) as Hstaged.
    { destruct Hsep as (Hworking & Hsaved & Hinj).
      unfold SaveVersion_staged. simpl.
      remember (<[working tree := _]> (heap tree)) as h eqn:Hh.
      assert (working tree ∈ dom h) as Hw.
      { rewrite Hh. apply elem_of_dom. rewrite lookup_insert_eq. eauto. }
      assert (∀ l, l ∈ dom (heap tree) → l ∈ dom h) as Hsub.
      { intros l Hl. rewrite Hh, dom_insert_L. by apply elem_of_union_r. }
      clear Hh. split_and!; simpl.
      - apply elem_of_dom. rewrite lookup_insert_eq. eauto.
      - intros v l. destruct (decide (V = v)) as [<-|Hne].
        + rewrite lookup_insert_eq. intros [= <-]. by apply fresh_insert_dom.
        + rewrite lookup_insert_ne by done. intros Hl.
          destruct (Hsaved _ _ Hl). by apply fresh_insert_dom, Hsub.
      - intros v1 v2 l.
        destruct (decide (V = v1)) as [<-|Hne1], (decide (V = v2)) as [<-|Hne2];
          rewrite ?lookup_insert_eq, ?lookup_insert_ne by done; [done| | |by apply Hinj].
        + intros [= <-] Hl. by destruct (Hsaved _ _ Hl).
        + intros Hl [= <-]. by destruct (Hsaved _ _ Hl). }
    destruct (ndb_Commit _); simpl; [by destruct (root _)|done].
  - DeleteVersion_guards tree V done.
    destruct (ndb_Commit _); simpl; [|done].
    destruct Hsep as (Hworking & Hsaved & Hinj). split_and!; simpl; [done| |].
    + intros v l [_ Hl]%lookup_delete_Some. by apply (Hsaved v).
    + intros v1 v2 l [_ H1]%lookup_delete_Some [_ H2]%lookup_delete_Some.
      by eapply Hinj.
  - eapply separated_write; [exact Hsep|simpl; set_solver|done..].
Qed.

End Pointers.

(** ** The life of a version *)

Section Lifecycle.
Context `{C : Collaborators}.

Lemma register_latest (m : gmap N positive) (L vn : N) (t : positive) :
  (is_Some (m !! L) → is_Some (<[vn := t]> m !! N.max L vn)) ∧
  (L = 0 ∨ is_Some (m !! L) →
   N.max L vn = 0 ∨ is_Some (<[vn := t]> m !! N.max L vn)).
Proof.
  destruct (N.max_spec L vn) as [[Hlt ->]|[Hle ->]].
  - rewrite lookup_insert_eq. eauto.
  - rewrite lookup_insert_is_Some'. intuition.
Qed.

Lemma Load_roots_latest_saved roots tree :
  (is_Some (versions tree !! latestVersion tree) →
   is_Some (versions (Load_roots roots tree).2 !! latestVersion (Load_roots roots tree).2)) ∧
  (latest_saved tree → latest_saved (Load_roots roots tree).2).
Proof.
  revert tree. induction roots as [|r roots IH]; intros tree; simpl; [done|].
  unfold bind. rewrite Load_root_eq. simpl.
  destruct (root _) as [n|]; simpl; [|done].
  match goal with |- context [Load_roots roots ?t] => specialize (IH t) end.
  destruct (register_latest (versions tree) (latestVersion tree) (version n)
              (fresh (dom (heap tree)))) as [Hsome Hsaved].
  destruct (Load_roots roots _) as [[[]|p] tree'']; simpl in *;
    destruct IH as [IH1 IH2]; split; intros H; by (apply IH1, Hsome || apply IH2, Hsaved).
Qed.

Lemma state_after_step_latest_saved s tree :
  latest_saved tree → latest_saved (state_after_step s tree).
Proof.
  intros Hsaved.
  destruct s as [[|V|V| | | | |k V|k V|s e l V|s e V|s e V]|f]; simpl;
    try done;
    try (unfold GetVersioned, GetVersionedWithProof, GetVersionedRangeWithProof,
           GetVersionedFirstInRangeWithProof, GetVersionedLastInRangeWithProof,
           bind, gets, ret; simpl; by destruct (versions tree !! V)).
  - destruct (Load_versions tree) as (roots & tree1 & -> & Hv & Hl & _).
    unfold latest_saved. rewrite Hv, Hl. by apply Load_roots_latest_saved.
  - SaveVersion_guards tree V done.
    assert (latest_saved (SaveVersion_staged V tree)) as Hstaged.
    { right. simpl. rewrite lookup_insert_eq. eauto. }
    destruct (ndb_Commit _); simpl; [by destruct (root _)|done].
  - DeleteVersion_guards tree V done.
    destruct (ndb_Commit _); simpl; [|done].
    destruct Hsaved as [?|?]; [by left|right]. simpl. by rewrite lookup_delete_ne.
Qed.

Lemma Load_roots_persist roots tree v :
  is_Some (versions tree !! v) → is_Some (versions (Load_roots roots tree).2 !! v).
Proof.
  revert tree. induction roots as [|r roots IH]; intros tree Hv; simpl; [done|].
  unfold bind. rewrite Load_root_eq. simpl.
  destruct (root _) as [n|]; simpl; [|done].
  match goal with |- context [Load_roots roots ?t] => specialize (IH t) end.
  destruct (Load_roots roots _) as [[[]|p] tree'']; simpl in *; apply IH;
    rewrite lookup_insert_is_Some'; by right.
Qed.

Lemma state_after_step_persist s tree v :
  is_Some (versions tree !! v) → s ≠ step_call (call_DeleteVersion v) →
  is_Some (versions (state_after_step s tree) !! v).
Proof.
  intros Hv Hs.
  destruct s as [[|V|V| | | | |k V|k V|s e l V|s e V|s e V]|f]; simpl;
    try done;
    try (unfold GetVersioned, GetVersionedWithProof, GetVersionedRangeWithProof,
           GetVersionedFirstInRangeWithProof, GetVersionedLastInRangeWithProof,
           bind, gets, ret; simpl; by destruct (versions tree !! V)).
  - destruct (Load_versions tree) as (roots & tree1 & -> & -> & _).
    by apply Load_roots_persist.
  - SaveVersion_guards tree V done.
    assert (is_Some (versions (SaveVersion_staged V tree) !! v)) as Hstaged.
    { simpl. rewrite lookup_insert_is_Some'. by right. }
    destruct (ndb_Commit _); simpl; [by destruct (root _)|done].
  - DeleteVersion_guards tree V done.
    destruct (ndb_Commit _); simpl; [|done].
    rewrite lookup_delete_ne; [done|]. by intros ->.
Qed.

(** X1.  [latestVersion] is 0 or a key of the version map: this holds of a
    new tree and is kept by every sequence of calls and promoted methods,
    returning or panicking. *)
Theorem latest_saved_kept :
  (∀ cacheSize db, latest_saved (NewVersionedTree cacheSize db)) ∧
  (∀ steps tree, latest_saved tree → latest_saved (run_steps steps tree)).
Proof.
  split; [by left|].
  induction steps as [|s steps IH]; intros tree Hsaved; [done|].
  by apply IH, state_after_step_latest_saved.
Qed.

(** X2.  The pointers stay apart: on a new tree, and after every sequence of
    calls and promoted methods from a tree where it holds, the working tree
    is an allocated object, every saved version points to an allocated object
    other than the working tree, and no two versions share an object. *)
Theorem separated_kept :
  (∀ cacheSize db, separated (NewVersionedTree cacheSize db)) ∧
  (∀ steps tree, separated tree → separated (run_steps steps tree)).
Proof.
  split.
  - intros cacheSize db. split_and!; simpl.
    + apply elem_of_dom. rewrite lookup_singleton_eq. eauto.
    + intros v l. by rewrite lookup_empty.
    + intros v1 v2 l. by rewrite lookup_empty.
  - induction steps as [|s steps IH]; intros tree Hsep; [done|].
    by apply IH, state_after_step_separated.
Qed.

(** X3.  A saved version's tree object is never written again: whatever
    calls and promoted methods follow, the object that [versions[v]] points
    to keeps its contents. *)
Theorem saved_objects_immutable (steps : list step) (tree : VersionedTree)
    (v : uint64) (l : positive) :
  separated tree →
  versions tree !! v = Some l →
  object (run_steps steps tree) l = object tree l.
Proof.
  intros (_ & Hsaved & _) Hl. destruct (Hsaved _ _ Hl). by apply run_steps_object.
Qed.

(** X4.  Only [DeleteVersion(v)] takes [v] out of the version map: a version
    that exists still exists after any sequence of steps that has no
    [DeleteVersion(v)] among them. *)
Theorem versions_persist (steps : list step) (tree : VersionedTree) (v : uint64) :
  is_Some (versions tree !! v) →
  step_call (call_DeleteVersion v) ∉ steps →
  is_Some (versions (run_steps steps tree) !! v).
Proof.
  revert tree. induction steps as [|s steps IH]; intros tree Hv Hsteps; [done|].
  apply not_elem_of_cons in Hsteps as [Hs Hsteps].
  by apply IH; [apply state_after_step_persist|].
Qed.

End Lifecycle.

(** ** When the calls succeed, and what follows *)

Section Outcomes.
Context `{C : Collaborators}.

Lemma SaveVersion_staged_root V tree :
  is_Some (root (object tree (working tree))) →
  is_Some (root (object (SaveVersion_staged V tree) (working (SaveVersion_staged V tree)))).
Proof.
  intros Hroot. unfold object at 1. simpl. rewrite lookup_insert_eq. simpl.
  rewrite ot_Clone_root. by apply ot_SaveVersion_root.
Qed.

Lemma SaveVersion_not_above_latest V tree :
  V ≤ latestVersion tree → ∃ e, SaveVersion V tree = (Returns ([], Some e), tree).
Proof. intros Hle. SaveVersion_guards tree V eauto. lia. Qed.

(** X5.  [SaveVersion(V)] returns a nil error exactly when [V] is not yet
    saved, the working root is not nil, [V] is greater than [latestVersion]
    and the store commits what the call staged. *)
Theorem SaveVersion_succeeds_iff (tree : VersionedTree) (V : uint64) :
  (∃ h tree', SaveVersion V tree = (Returns (h, None), tree')) ↔
  versions tree !! V = None ∧
  is_Some (root (object tree (working tree))) ∧
  latestVersion tree < V ∧
  is_Some (ndb_Commit (ndb (SaveVersion_staged V tree))).
Proof.
  rewrite SaveVersion_eq. split.
  - intros (h & tree' & Hsave).
    destruct (versions tree !! V); [done|].
    destruct (root (object tree (working tree))); [|done].
    case_bool_decide; [done|]. case_bool_decide; [done|]. simpl in Hsave.
    destruct (ndb_Commit _); [|done]. split_and!; [done|eauto|lia|eauto].
  - intros (-> & [n Hroot] & Hlt & [db Hcommit]). rewrite Hroot.
    rewrite !bool_decide_eq_false_2 by lia. cbv zeta. rewrite Hcommit.
    destruct (SaveVersion_staged_root V tree) as [n' ->]; [by rewrite Hroot|]. eauto.
Qed.

(** X6.  [DeleteVersion(V)] returns a nil error exactly when [V] is not 0,
    is not [latestVersion], is in the version map, and the store commits the
    deletion. *)
Theorem DeleteVersion_succeeds_iff (tree : VersionedTree) (V : uint64) :
  (∃ tree', DeleteVersion V tree = (Returns None, tree')) ↔
  V ≠ 0 ∧ V ≠ latestVersion tree ∧ is_Some (versions tree !! V) ∧
  is_Some (ndb_Commit (ndb_DeleteVersion V (ndb tree))).
Proof.
  rewrite DeleteVersion_eq. split.
  - intros (tree' & Hdelete).
    case_bool_decide; [done|]. case_bool_decide; [done|].
    destruct (versions tree !! V); [|done]. simpl in Hdelete.
    destruct (ndb_Commit _); [|done]. split_and!; eauto.
  - intros (H0 & Hlatest & [t Ht] & [db Hcommit]).
    rewrite !bool_decide_eq_false_2, Ht by done. simpl. rewrite Hcommit. eauto.
Qed.

(** X7.  [DeleteVersion] panics only when the commit fails, and then the
    version map, [latestVersion], the working tree and the tree objects are
    as before the call: [V] is still there.  The store holds the deletion it
    was asked for. *)
Theorem DeleteVersion_panic (tree tree' : VersionedTree) (V : uint64) (p : panic) :
  DeleteVersion V tree = (Panics p, tree') →
  p = commit_failure ∧
  versions tree' = versions tree ∧
  is_Some (versions tree' !! V) ∧
  latestVersion tree' = latestVersion tree ∧
  working tree' = working tree ∧
  heap tree' = heap tree ∧
  ndb tree' = ndb_DeleteVersion V (ndb tree).
Proof.
  rewrite DeleteVersion_eq.
  case_bool_decide; [done|]. case_bool_decide; [done|].
  destruct (versions tree !! V) eqn:Hsaved; [|done]. simpl.
  destruct (ndb_Commit _); [done|]. intros [= <- <-]. simpl.
  split_and!; by rewrite ?Hsaved.
Qed.

(** X8.  After a successful [SaveVersion(V)]: [LatestVersion()] is [V],
    [VersionExists(V)] is true, [GetVersioned(key, V)] reads the tree that was
    the working tree, as [orphaningTree.SaveVersion(V)] froze it,
    [DeleteVersion(V)] fails with the "cannot delete latest saved version"
    error, and the version that was the latest before, if it is saved and not
    0, passes the guards of [DeleteVersion]. *)
Theorem after_SaveVersion (tree tree' : VersionedTree) (V : uint64) (h : bytes) :
  SaveVersion V tree = (Returns (h, None), tree') →
  LatestVersion tree' = (Returns V, tree') ∧
  VersionExists V tree' = (Returns true, tree') ∧
  (∀ key, GetVersioned key V tree' =
     (Returns (ot_Get (ndb tree')
                 (ot_SaveVersion V (object tree (working tree)) (ndb tree)).1 key),
      tree')) ∧
  DeleteVersion V tree' =
    (Returns (Some (errors_Errorf "cannot delete latest saved version (%d)" [V])), tree') ∧
  (latestVersion tree ≠ 0 → is_Some (versions tree !! latestVersion tree) →
   ∀ e, (DeleteVersion (latestVersion tree) tree').1 ≠ Returns (Some e)).
Proof.
  SaveVersion_guards tree V done.
  destruct (ndb_Commit _) as [db|]; [|done].
  destruct (root (object _ _)); [|done]. intros [= _ <-].
  assert (working tree ≠ working (SaveVersion_staged V tree)) as Hne.
  { simpl. refine (proj2 (fresh_insert_dom _ (object tree (working tree)) _ _)).
    apply elem_of_dom. rewrite lookup_insert_eq. eauto. }
  simpl in Hne.
  split_and!.
  - done.
  - unfold VersionExists, gets. simpl. rewrite lookup_insert_eq.
    rewrite bool_decide_eq_true_2; eauto.
  - intros key. unfold GetVersioned, bind, gets, object. simpl.
    rewrite lookup_insert_eq. simpl.
    by rewrite lookup_insert_ne, lookup_insert_eq.
  - rewrite DeleteVersion_eq. simpl.
    by rewrite bool_decide_eq_false_2, bool_decide_eq_true_2.
  - intros Hlatest [t Ht] e. rewrite DeleteVersion_eq. simpl.
    rewrite !bool_decide_eq_false_2 by lia.
    rewrite lookup_insert_ne, Ht by lia. simpl. by destruct (ndb_Commit _).
Qed.

(** X9.  After a successful [DeleteVersion(V)] the version is gone for good:
    a second [DeleteVersion(V)] and the versioned proof reads of [V] fail
    with [ErrVersionDoesNotExist], and on a tree whose saved versions are at
    most [latestVersion] a later [SaveVersion(V)] is refused with an error. *)
Theorem after_DeleteVersion (tree tree' : VersionedTree) (V : uint64) :
  DeleteVersion V tree = (Returns None, tree') →
  DeleteVersion V tree' =
    (Returns (Some (errors_WithStack ErrVersionDoesNotExist)), tree') ∧
  (∀ key, GetVersioned key V tree' = (Returns ((-1)%Z, [], false), tree')) ∧
  (∀ key, GetVersionedWithProof key V tree' =
     (Returns ([], None, Some (errors_WithStack ErrVersionDoesNotExist)), tree')) ∧
  (versions_valid tree → ∃ e, SaveVersion V tree' = (Returns ([], Some e), tree')).
Proof.
  rewrite DeleteVersion_eq.
  case_bool_decide; [done|]. case_bool_decide; [done|].
  destruct (versions tree !! V) eqn:Hsaved; [|done]. simpl.
  destruct (ndb_Commit _) as [db|]; [|done]. intros [= <-].
  split_and!.
  - rewrite DeleteVersion_eq. simpl.
    by rewrite !bool_decide_eq_false_2, lookup_delete_eq.
  - intros key. unfold GetVersioned, bind, gets, ret. simpl. by rewrite lookup_delete_eq.
  - intros key. unfold GetVersionedWithProof, bind, gets, ret. simpl.
    by rewrite lookup_delete_eq.
  - intros Hvalid. destruct (Hvalid V _ Hsaved) as [_ Hle].
    by apply SaveVersion_not_above_latest.
Qed.

End Outcomes.

(** ** The new tree, and [Load] in every case *)

Section Edges.
Context `{C : Collaborators}.

(** X10.  A new tree holds nothing to save or delete: [LatestVersion()] is
    0, no version exists, every [SaveVersion] fails with [ErrNilRoot] (also
    [SaveVersion(0)]: the nil root is checked first), [DeleteVersion(0)]
    fails with the "version must be greater than 0" error and
    [DeleteVersion] of any other version with [ErrVersionDoesNotExist]; the
    tree is unchanged by all of them. *)
Theorem NewVersionedTree_empty (cacheSize : Z) (db : DB) (V : uint64) :
  LatestVersion (NewVersionedTree cacheSize db) =
    (Returns 0, NewVersionedTree cacheSize db) ∧
  VersionExists V (NewVersionedTree cacheSize db) =
    (Returns false, NewVersionedTree cacheSize db) ∧
  SaveVersion V (NewVersionedTree cacheSize db) =
    (Returns ([], Some ErrNilRoot), NewVersionedTree cacheSize db) ∧
  DeleteVersion V (NewVersionedTree cacheSize db) =
    (Returns (Some (if bool_decide (V = 0)
                    then errors_New "version must be greater than 0"
                    else errors_WithStack ErrVersionDoesNotExist)),
     NewVersionedTree cacheSize db).
Proof.
  split_and!; [done|done| |].
  - rewrite SaveVersion_eq. simpl. rewrite lookup_empty.
    unfold object. simpl. by rewrite lookup_singleton_eq.
  - rewrite DeleteVersion_eq. simpl. rewrite lookup_empty.
    by case_bool_decide.
Qed.

(** X11.  [Load] returns a non-nil error exactly when [getRoots] fails: the
    error is the store's, and the tree is as it was. *)
Theorem Load_error (tree tree' : VersionedTree) (e : error) :
  Load tree = (Returns (Some e), tree') ↔
  ndb_getRoots (ndb tree) = inr e ∧ tree' = tree.
Proof.
  rewrite Load_eq. split.
  - destruct (ndb_getRoots _) as [roots|err]; [|by intros [= -> ->]].
    destruct (Load_roots roots tree) as [[[]|p] tree1]; [|done].
    by destruct (versions tree1 !! latestVersion tree1).
  - by intros [-> ->].
Qed.

Lemma Load_roots_app roots1 roots2 tree :
  Load_roots (roots1 ++ roots2) tree =
    bind (Load_roots roots1) (λ _, Load_roots roots2) tree.
Proof.
  revert tree. induction roots1 as [|r roots1 IH]; intros tree; simpl; [done|].
  unfold bind at 1 2 3.
  destruct (Load_root r tree) as [[[]|p] tree1]; [|done]. by rewrite IH.
Qed.

Lemma Load_roots_registered roots tree tree' v :
  Forall (λ r, is_Some (root (loaded (ndb tree) r))) roots →
  Load_roots roots tree = (Returns tt, tree') →
  v ∈ root_versions (ndb tree) roots →
  ∃ l, versions tree' !! v = Some l ∧ l ∈ dom (heap tree') ∧ heap tree !! l = None.
Proof.
  intros Hall Hrun Hv.
  destruct (Load_roots_returns roots tree Hall) as (tree1 & Hrun1 & _ & _ & Hreg).
  rewrite Hrun in Hrun1. injection Hrun1 as <-.
  destruct (root_versions_last _ _ _ Hv) as (i & r & n & Hr & Hn & <- & Hlast).
  destruct (Hreg i r n Hr Hn Hlast) as (l & ? & Hobj & ?).
  exists l. split_and!; [done| |done]. apply elem_of_dom. eauto.
Qed.

(** X12.  [Load] does not undo a partial load.  When a stored root loads to
    a tree without a root node while the roots before it load to nodes,
    [Load] panics on the nil dereference at that root; the roots before it
    stay registered, [latestVersion] has been raised to the largest of their
    versions, and the working tree is the one from before the call. *)
Theorem Load_nil_root (tree : VersionedTree) (before after : list bytes) (r : bytes) :
  ndb_getRoots (ndb tree) = inl (before ++ r :: after) →
  Forall (λ r, is_Some (root (loaded (ndb tree) r))) before →
  root (loaded (ndb tree) r) = None →
  (Load tree).1 = Panics nil_dereference ∧
  working (Load tree).2 = working tree ∧
  latestVersion (Load tree).2 =
    N.max (latestVersion tree) (max_version (root_versions (ndb tree) before)) ∧
  (∀ v, v ∈ root_versions (ndb tree) before → is_Some (versions (Load tree).2 !! v)).
Proof.
  intros Hroots Hall Hnil.
  destruct (Load_roots_returns before tree Hall) as (tree1 & Hrun & Hlatest & _ & _).
  pose proof (Load_roots_frame before tree) as Hframe.
  rewrite Hrun in Hframe. simpl in Hframe. destruct Hframe as (Hndb & Hworking & _).
  assert (Load tree =
            (Panics nil_dereference,
             set_heap (<[fresh (dom (heap tree1)) := loaded (ndb tree) r]> (heap tree1))
               tree1)) as ->.
  { rewrite Load_eq, Hroots, Load_roots_app. unfold bind at 1. rewrite Hrun.
    simpl. unfold bind at 1. by rewrite Load_root_eq, Hndb, Hnil. }
  simpl. split_and!; [done..|].
  intros v Hv.
  destruct (Load_roots_registered before tree tree1 v Hall Hrun Hv) as (l & -> & _).
  eauto.
Qed.

(** X13.  On a tree whose [latestVersion] is saved, [Load] returns nil
    whenever [getRoots] succeeds and every root loads to a node, also when
    there are no roots: the working tree becomes a new object holding the
    clone of the tree registered under the resulting [latestVersion].  With
    no roots, the version map and [latestVersion] stay, so the call resets
    the working tree to the latest saved version. *)
Theorem Load_with_saved_latest (tree : VersionedTree) (roots : list bytes) :
  separated tree →
  is_Some (versions tree !! latestVersion tree) →
  ndb_getRoots (ndb tree) = inl roots →
  Forall (λ r, is_Some (root (loaded (ndb tree) r))) roots →
  ∃ tree' l,
    Load tree = (Returns None, tree') ∧
    latestVersion tree' =
      N.max (latestVersion tree) (max_version (root_versions (ndb tree) roots)) ∧
    versions tree' !! latestVersion tree' = Some l ∧
    heap tree !! working tree' = None ∧
    object tree' (working tree') = ot_Clone (object tree' l) ∧
    (roots = [] →
     versions tree' = versions tree ∧ latestVersion tree' = latestVersion tree ∧
     object tree' l = object tree l).
Proof.
  intros Hsep Hsaved Hroots Hall.
  destruct (Load_roots_returns roots tree Hall) as (tree1 & Hrun & Hlatest & _ & _).
  pose proof (Load_roots_frame roots tree) as Hframe.
  pose proof (Load_roots_separated roots tree Hsep) as Hsep1.
  pose proof (proj1 (Load_roots_latest_saved roots tree) Hsaved) as Hsaved1.
  rewrite Hrun in Hframe, Hsep1, Hsaved1. simpl in *.
  destruct Hframe as (_ & _ & Hsub). destruct Hsaved1 as [l Hl].
  destruct Hsep1 as (_ & Hallocated & _). destruct (Hallocated _ _ Hl) as [Hin _].
  pose proof (fresh_not_allocated (heap tree1)) as Hfresh.
  assert (fresh (dom (heap tree1)) ≠ l) as Hne.
  { intros Heq. rewrite Heq in Hfresh. by apply not_elem_of_dom in Hfresh. }
  rewrite Load_eq, Hroots, Hrun, Hl. simpl.
  eexists _, l. split; [done|]. simpl. split_and!; [done|done| | |].
  - by eapply lookup_weaken_None.
  - unfold object. simpl. by rewrite lookup_insert_eq, lookup_insert_ne.
  - intros ->. simpl in Hrun. injection Hrun as <-.
    split_and!; [done..|]. unfold object. simpl. by rewrite lookup_insert_ne.
Qed.

End Edges.

(** ** The further properties on the node store in memory *)

Lemma tree_12_separated : separated MemStore.tree_12.
Proof.
  assert (separated (MemStore.tree_a false)) as Ha.
  { split_and!.
    - apply elem_of_dom. vm_compute. eauto.
    - intros v l Hl. vm_compute in Hl. done.
    - intros v1 v2 l Hl. vm_compute in Hl. done. }
  apply (state_after_step_separated (step_call (call_SaveVersion 1))) in Ha.
  assert (separated (MemStore.with_root MemStore.leaf_b
                       (SaveVersion 1 (MemStore.tree_a false)).2)) as Hb.
  { eapply separated_write; [exact Ha|..]; [|done..].
    unfold MemStore.with_root. simpl. rewrite dom_insert_L. set_solver. }
  exact (state_after_step_separated (step_call (call_SaveVersion 2)) _ Hb).
Qed.

Lemma tree_12_valid : versions_valid MemStore.tree_12.
Proof.
  unfold versions_valid.
  replace (versions MemStore.tree_12)
    with (<[2 := 2%positive]> (<[1 := 1%positive]> (∅ : gmap N positive)))
    by (vm_compute; reflexivity).
  repeat apply map_Forall_insert_2; [..|apply map_Forall_empty]; vm_compute; by split.
Qed.

Lemma latest_saved_kept_witness :
  latest_saved (run_steps MemStore.session (MemStore.new_tree false)).
Proof.
  destruct (latest_saved_kept (C := MemStore.collaborators)) as [Hnew Hkept].
  apply Hkept, Hnew.
Defined.

Lemma separated_kept_witness :
  separated (run_steps MemStore.session (MemStore.new_tree false)).
Proof.
  destruct (separated_kept (C := MemStore.collaborators)) as [Hnew Hkept].
  apply Hkept, Hnew.
Defined.

Lemma saved_objects_immutable_witness :
  versions MemStore.tree_12 !! 1 = Some 1%positive ∧
  object (run_steps MemStore.later MemStore.tree_12) 1%positive =
    object MemStore.tree_12 1%positive.
Proof.
  split; [reflexivity|].
  apply (saved_objects_immutable MemStore.later MemStore.tree_12 1).
  - apply tree_12_separated.
  - reflexivity.
Defined.

Lemma versions_persist_witness :
  is_Some (versions (run_steps MemStore.later MemStore.tree_12) !! 1).
Proof.
  apply versions_persist.
  - vm_compute. eauto.
  - unfold MemStore.later. intros Hin.
    repeat (apply elem_of_cons in Hin as [Hin|Hin]; [discriminate Hin|]).
    by apply elem_of_nil in Hin.
Defined.

Lemma SaveVersion_succeeds_iff_witness :
  ∃ h tree', SaveVersion 1 (MemStore.tree_a false) = (Returns (h, None), tree').
Proof.
  apply (proj2 (SaveVersion_succeeds_iff (MemStore.tree_a false) 1)).
  split_and!; [reflexivity|vm_compute; eauto|reflexivity|vm_compute; eauto].
Defined.

Lemma DeleteVersion_succeeds_iff_witness :
  ∃ tree', DeleteVersion 1 MemStore.tree_12 = (Returns None, tree').
Proof.
  apply (proj2 (DeleteVersion_succeeds_iff MemStore.tree_12 1)).
  split_and!; [discriminate|vm_compute; discriminate|vm_compute; eauto..].
Defined.

Lemma DeleteVersion_panic_witness :
  (DeleteVersion 1 MemStore.tree_12_failing).1 = Panics commit_failure ∧
  versions (DeleteVersion 1 MemStore.tree_12_failing).2 = versions MemStore.tree_12_failing ∧
  is_Some (versions (DeleteVersion 1 MemStore.tree_12_failing).2 !! 1).
Proof.
  assert (DeleteVersion 1 MemStore.tree_12_failing =
            (Panics commit_failure, (DeleteVersion 1 MemStore.tree_12_failing).2))
    as Hpanic by (vm_compute; reflexivity).
  destruct (DeleteVersion_panic _ _ _ _ Hpanic) as (_ & Hversions & Hstill & _).
  split_and!; [vm_compute; reflexivity|exact Hversions|exact Hstill].
Defined.

Lemma after_SaveVersion_witness :
  LatestVersion (SaveVersion 1 (MemStore.tree_a false)).2 =
    (Returns 1, (SaveVersion 1 (MemStore.tree_a false)).2) ∧
  DeleteVersion 1 (SaveVersion 1 (MemStore.tree_a false)).2 =
    (Returns (Some (errors_New "cannot delete latest saved version (1)")),
     (SaveVersion 1 (MemStore.tree_a false)).2).
Proof.
  assert (SaveVersion 1 (MemStore.tree_a false) =
            (Returns ([Byte.xaa], None), (SaveVersion 1 (MemStore.tree_a false)).2))
    as Hsave by (vm_compute; reflexivity).
  destruct (after_SaveVersion _ _ _ _ Hsave) as (Hlatest & _ & _ & Hdelete & _).
  split; [exact Hlatest|exact Hdelete].
Defined.

Lemma after_DeleteVersion_witness :
  DeleteVersion 1 (DeleteVersion 1 MemStore.tree_12).2 =
    (Returns (Some (errors_WithStack ErrVersionDoesNotExist)),
     (DeleteVersion 1 MemStore.tree_12).2) ∧
  ∃ e, SaveVersion 1 (DeleteVersion 1 MemStore.tree_12).2 =
         (Returns ([], Some e), (DeleteVersion 1 MemStore.tree_12).2).
Proof.
  assert (DeleteVersion 1 MemStore.tree_12 =
            (Returns None, (DeleteVersion 1 MemStore.tree_12).2))
    as Hdelete by (vm_compute; reflexivity).
  destruct (after_DeleteVersion _ _ _ Hdelete) as (Hagain & _ & _ & Hsave).
  split; [exact Hagain|apply Hsave, tree_12_valid].
Defined.

Lemma Load_error_witness :
  ¬ ∃ e tree', Load MemStore.unloaded_12 = (Returns (Some e), tree').
Proof.
  intros (e & tree' & Hload).
  apply (proj1 (Load_error MemStore.unloaded_12 tree' e)) in Hload as [Hroots _].
  discriminate Hroots.
Defined.

Lemma Load_nil_root_witness :
  (Load MemStore.unloaded_missing).1 = Panics nil_dereference ∧
  latestVersion (Load MemStore.unloaded_missing).2 = 1 ∧
  is_Some (versions (Load MemStore.unloaded_missing).2 !! 1).
Proof.
  destruct (Load_nil_root MemStore.unloaded_missing [[Byte.xaa]] [] [Byte.xbb])
    as (Hpanic & _ & Hlatest & Hregistered).
  - reflexivity.
  - repeat constructor. vm_compute. eauto.
  - reflexivity.
  - split_and!; [exact Hpanic|by rewrite Hlatest|].
    apply Hregistered. vm_compute. apply list_elem_of_here.
Defined.

Lemma Load_with_saved_latest_witness :
  ∃ tree' l,
    Load MemStore.tree_12 = (Returns None, tree') ∧
    latestVersion tree' = 2 ∧
    versions tree' !! 2 = Some l ∧
    object tree' (working tree') = ot_Clone (object tree' l).
Proof.
  destruct (Load_with_saved_latest MemStore.tree_12 [[Byte.xaa]; [Byte.xbb]])
    as (tree' & l & Hload & Hlatest & Hl & _ & Hclone & _).
  - apply tree_12_separated.
  - vm_compute. eauto.
  - reflexivity.
  - repeat constructor; vm_compute; eauto.
  - assert (latestVersion tree' = 2) as Hlatest2 by (rewrite Hlatest; reflexivity).
    exists tree', l. rewrite Hlatest2 in Hl. by split_and!.
Defined.
